(** * FENaPack: PCD-preconditioned Navier-Stokes demo and scaling benchmark

    Shallow embedding of
      - demo/navier_flow/step3D_lu.py   (module [Demo]),
      - test/bench/test_pcd_scaling.py  (module [Bench]),
    together with the solver core the two scripts drive (module [Core]).

    Conventions.  Python floats are idealised as exact numbers:
    tolerances, residual norms and command-line values are rationals [Q],
    mesh coordinates and the stretch exponent are reals [R], and the
    coefficients of variational forms live in the scalar field [K] over
    which the algebraic back end assembles its matrices.  UFL forms are
    kept symbolic, as formal linear combinations of integrals. *)

From Stdlib Require Import String Ascii ZArith QArith Qabs Reals Lra Lia.
From Stdlib Require Import Floats.
From Stdlib Require Lqa.
From mathcomp Require Import ssreflect ssrfun ssrbool eqtype ssrnat seq.
From mathcomp Require Import fintype bigop order ssralg ssrnum ssrint rat matrix.

Set Implicit Arguments.
Unset Strict Implicit.
Unset Printing Implicit Defensive.

Import GRing.Theory Num.Theory.

(** [%R] stays MathComp's ring scope; Stdlib integers, rationals and reals
    get their own delimiters back. *)
Delimit Scope Z_scope with Z.
Delimit Scope Q_scope with Q.
Delimit Scope R_scope with Re.
Close Scope Q_scope.
Close Scope R_scope.
Close Scope Z_scope.

(* ===================================================================== *)
(** ** Symbolic variational forms (the fragment of UFL the scripts use)   *)
(* ===================================================================== *)

Module Ufl.

(** Vector-valued arguments and coefficients. *)
Inductive vfield : Type :=
| Iterate_u    (* u_  : velocity part of split(w)      *)
| Trial_u      (* u   : velocity trial function         *)
| Test_v       (* v   : velocity test function          *)
| Source_f     (* f   : body force                      *)
| Normal_n.    (* n   : FacetNormal(mesh)               *)

(** Scalar-valued arguments and coefficients. *)
Inductive sfield : Type :=
| Iterate_p    (* p_  : pressure part of split(w)       *)
| Trial_p      (* p   : pressure trial function         *)
| Test_q.      (* q   : pressure test function          *)

(** Integration measures: cells, or exterior facets carrying a marker. *)
Inductive measure : Type :=
| dx
| ds (marker : nat).

(** Integrands, one constructor per UFL expression shape in the sources. *)
Inductive integrand : Type :=
| GradGrad (a b : vfield)                (* inner(grad(a), grad(b))       *)
| Convect (a b c : vfield)               (* inner(dot(grad(a), b), c)     *)
| DivOuter (a b c : vfield)              (* inner(div(outer(a, b)), c)    *)
| MulDiv (s : sfield) (a : vfield)       (* s*div(a)                      *)
| Inner (a b : vfield)                   (* inner(a, b)                   *)
| Mass (s t : sfield)                    (* s*t                           *)
| SGradGrad (s t : sfield)               (* inner(grad(s), grad(t))       *)
| SConvect (s : sfield) (b : vfield) (t : sfield)
                                         (* dot(grad(s), b)*t             *)
| Flux (a b : vfield) (s t : sfield)     (* inner(a, b)*s*t               *)
| Streamline (a b c d : vfield).         (* delta*inner(dot(grad(a), b),
                                                        dot(grad(c), d))  *)

Definition is_iterate_u (a : vfield) : bool :=
  if a is Iterate_u then true else false.

Definition is_trial_u (a : vfield) : bool :=
  if a is Trial_u then true else false.

Definition is_surface (m : measure) : bool :=
  if m is ds _ then true else false.

Section Forms.

Variable K : numFieldType.

(** One integral with its scalar factor. *)
Record term : Type := Term { coef : K; body : integrand; meas : measure }.

(** A form is a formal sum of integrals. *)
Definition form : Type := seq term.

Definition integral (i : integrand) (m : measure) : form := [:: Term 1%R i m].

Definition fadd (a b : form) : form := cat a b.

Definition fscale (c : K) (a : form) : form :=
  [seq Term (c * coef t)%R (body t) (meas t) | t <- a].

Definition fneg (a : form) : form := fscale (-1)%R a.

Definition fsub (a b : form) : form := fadd a (fneg b).

(** The parts of a form integrated over cells and over exterior facets. *)
Definition volume_part (a : form) : form :=
  [seq t <- a | ~~ is_surface (meas t)].

Definition surface_part (a : form) : form :=
  [seq t <- a | is_surface (meas t)].

Definition surface_markers (a : form) : seq nat :=
  pmap (fun t => if meas t is ds k then Some k else None) a.

(** Velocities that convect (second slot of a convection integrand). *)
Definition convecting (a : form) : seq vfield :=
  pmap (fun t => match body t with
                 | Convect _ b _ => Some b
                 | DivOuter _ b _ => Some b
                 | _ => None
                 end) a.

(** [derivative(F, w)]: Gateaux derivative with respect to the coefficient
    [w = (u_, p_)] in the direction of the trial function [(u, p)].  Every
    integrand is multilinear in its slots, so the derivative is the sum,
    over the slots holding a component of [w], of the integrand with that
    slot replaced by the matching trial function. *)
Definition dv (a : vfield) : seq vfield :=
  if a is Iterate_u then [:: Trial_u] else [::].

Definition dsc (s : sfield) : seq sfield :=
  if s is Iterate_p then [:: Trial_p] else [::].

Definition d_integrand (i : integrand) : seq integrand :=
  match i with
  | GradGrad a b =>
      cat [seq GradGrad a' b | a' <- dv a] [seq GradGrad a b' | b' <- dv b]
  | Convect a b c =>
      cat [seq Convect a' b c | a' <- dv a]
     (cat [seq Convect a b' c | b' <- dv b] [seq Convect a b c' | c' <- dv c])
  | DivOuter a b c =>
      cat [seq DivOuter a' b c | a' <- dv a]
     (cat [seq DivOuter a b' c | b' <- dv b] [seq DivOuter a b c' | c' <- dv c])
  | MulDiv s a =>
      cat [seq MulDiv s' a | s' <- dsc s] [seq MulDiv s a' | a' <- dv a]
  | Inner a b =>
      cat [seq Inner a' b | a' <- dv a] [seq Inner a b' | b' <- dv b]
  | Mass s t =>
      cat [seq Mass s' t | s' <- dsc s] [seq Mass s t' | t' <- dsc t]
  | SGradGrad s t =>
      cat [seq SGradGrad s' t | s' <- dsc s] [seq SGradGrad s t' | t' <- dsc t]
  | SConvect s b t =>
      cat [seq SConvect s' b t | s' <- dsc s]
     (cat [seq SConvect s b' t | b' <- dv b] [seq SConvect s b t' | t' <- dsc t])
  | Flux a b s t =>
      cat [seq Flux a' b s t | a' <- dv a]
     (cat [seq Flux a b' s t | b' <- dv b]
     (cat [seq Flux a b s' t | s' <- dsc s] [seq Flux a b s t' | t' <- dsc t]))
  | Streamline a b c d =>
      cat [seq Streamline a' b c d | a' <- dv a]
     (cat [seq Streamline a b' c d | b' <- dv b]
     (cat [seq Streamline a b c' d | c' <- dv c]
          [seq Streamline a b c d' | d' <- dv d]))
  end.

Definition derivative (a : form) : form :=
  flatten [seq [seq Term (coef t) i (meas t) | i <- d_integrand (body t)]
          | t <- a].

(** Assembly: the external finite-element layer turns every integral into a
    matrix; a form is assembled by linearity. *)
Section Assembly.

Variable n : nat.
Variable elem : integrand -> measure -> 'M[K]_n.

Definition assemble (a : form) : 'M[K]_n :=
  (\sum_(t <- a) coef t *: elem (body t) (meas t))%R.

End Assembly.

End Forms.

Declare Scope form_scope.
Delimit Scope form_scope with form.
Notation "a +f b" := (fadd a b) (at level 50, left associativity) : form_scope.
Notation "a -f b" := (fsub a b) (at level 50, left associativity) : form_scope.
Notation "c *f a" := (fscale c a) (at level 40, left associativity) : form_scope.

End Ufl.

(* ===================================================================== *)
(** ** Python values and dictionaries                                     *)
(* ===================================================================== *)

Module Py.

Inductive value : Type :=
| Bool (b : bool)
| Int (z : Z)
| Float (q : Q)
| Str (s : string).

(** [a < b] on floats. *)
Definition Qltb (a b : Q) : bool := ~~ Qle_bool b a.

(** A dictionary keyed by strings: lookup is application, assignment
    [d[k] = v] overrides the binding of [k] and of no other key. *)
Definition dict : Type := string -> option value.

Definition empty : dict := fun _ => None.

Definition set (d : dict) (k : string) (v : value) : dict :=
  fun k' => if String.eqb k' k then Some v else d k'.

(** Nested parameter sets, [prm["a"]["b"] = v], are keyed by the path
    [["a"; "b"]]. *)
Definition path : Type := seq string.

Fixpoint path_eqb (a b : path) : bool :=
  match a, b with
  | [::], [::] => true
  | x :: a', y :: b' => String.eqb x y && path_eqb a' b'
  | _, _ => false
  end.

Definition parameters : Type := path -> option value.

Definition assign (prm : parameters) (k : path) (v : value) : parameters :=
  fun k' => if path_eqb k' k then Some v else prm k'.

End Py.

(* ===================================================================== *)
(** ** The pieces of the finite-element layer the scripts call            *)
(* ===================================================================== *)

Module Dolfin.

(** A spatial point, indexed as [x[0]], [x[1]], [x[2]]. *)
Definition point : Type := seq Q.

Definition coord (x : point) (i : nat) : Q := nth 0%Q x i.

Definition DOLFIN_EPS : Q := 3 # 10000000000000000.

(** [near(x, x0)]: [x0 - DOLFIN_EPS <= x <= x0 + DOLFIN_EPS]. *)
Definition near (x x0 : Q) : bool :=
  Qle_bool (x0 - DOLFIN_EPS) x && Qle_bool x (x0 + DOLFIN_EPS).

(** A [SubDomain] is its [inside(x, on_boundary)] method; a facet function
    maps a facet (its position and boundary flag) to a marker. *)
Definition SubDomain : Type := point -> bool -> bool.

Definition FacetFunction : Type := point -> bool -> nat.

Definition set_all (k : nat) : FacetFunction := fun _ _ => k.

Definition mark (g : SubDomain) (mf : FacetFunction) (k : nat) : FacetFunction :=
  fun x on_boundary => if g x on_boundary then k else mf x on_boundary.

(** Sub-spaces of the mixed Taylor-Hood space [W]. *)
Inductive subspace : Type :=
| W_sub0           (* W.sub(0)        : velocity            *)
| W_sub0_sub2      (* W.sub(0).sub(2) : third velocity part *)
| W_sub1.          (* W.sub(1)        : pressure            *)

Record DirichletBC : Type := mkDirichletBC {
  bc_space : subspace;
  bc_value : point -> seq Q;
  bc_marker : nat
}.

End Dolfin.

Module Fenapack.

Import Ufl Dolfin.

(** What [NonlinearDiscreteProblem] / [PCDProblem] receive; keyword
    arguments that are not passed are [None]. *)
Record PCDProblem (K : numFieldType) : Type := mkPCDProblem {
  pb_F : form K;
  pb_bcs : seq DirichletBC;
  pb_J : form K;
  pb_J_pc : option (form K);
  pb_ap : option (form K);
  pb_fp : option (form K);
  pb_kp : option (form K);
  pb_mp : option (form K);
  pb_bcs_pcd : seq DirichletBC;
  pb_nu : option K
}.

(** The solver objects of the demo and of the benchmark with the state the
    scripts touch: parameter sets and PETSc option tables. *)
Record FieldSplitSolver : Type := mkFieldSplitSolver {
  fs_method : string;
  fs_parameters : Py.parameters;
  fs_OptDB_00 : Py.dict;
  fs_OptDB_11 : Py.dict
}.

Record NonlinearSolver : Type := mkNonlinearSolver {
  ns_inner_solver : FieldSplitSolver;
  ns_parameters : Py.parameters
}.

Record PCDKrylovSolver : Type := mkPCDKrylovSolver {
  ks_options_prefix : string;
  ks_parameters : Py.parameters;
  ks_options : Py.dict            (* as read by set_from_options() *)
}.

Record PCDNewtonSolver : Type := mkPCDNewtonSolver {
  nw_linear_solver : PCDKrylovSolver;
  nw_parameters : Py.parameters
}.

End Fenapack.

(* ===================================================================== *)
(** ** demo/navier_flow/step3D_lu.py                                      *)
(* ===================================================================== *)

Module Demo.

Import Ufl Dolfin Fenapack.
Local Open Scope string_scope.

(** *** Command line (lines 38-56) *)

Record Namespace : Type := mkNamespace {
  level : Z;
  stretch : Q;
  viscosity : Q;
  nls : string;
  pcd_strategy : string;
  save_results : bool
}.

Definition default_args : Namespace :=
  mkNamespace 3 1 (2 # 100) "Picard" "ESW" false.

Inductive parse_result : Type :=
| Parsed (args : Namespace)
| SystemExit (code : Z).

Definition nls_choices : seq string := [:: "Newton"; "Picard"].

Definition pcd_choices : seq string := [:: "BMR"; "ESW"].

Definition is_choice (cs : seq string) (s : string) : bool :=
  has (String.eqb s) cs.

Section ParseArgs.

(** The conversions [int(...)] and [float(...)] of the Python runtime. *)
Variable py_int : string -> option Z.
Variable py_float : string -> option Q.

(** [parser.parse_args]: the options as the script declares them, spelled
    in full and followed by their value in the next token.  A usage error
    exits with status 2, [-h] with status 0.  This is the fragment of
    argparse the declarations of lines 42-55 fix: the destinations, the
    defaults, the conversions and the check of a value against [choices].
    The other spellings argparse understands (abbreviated options,
    [--opt=value], [-l3]), its treatment of stray positional arguments and
    of values that look like options are not part of the model; on such
    command lines argparse may accept, or exit with another status, where
    the model reports a usage error. *)
Fixpoint parse_from (argv : seq string) (a : Namespace) : parse_result :=
  match argv with
  | [::] => Parsed a
  | opt :: rest =>
      if String.eqb opt "-h" || String.eqb opt "--help" then SystemExit 0
      else if String.eqb opt "--save" then
        parse_from rest
          (mkNamespace (level a) (stretch a) (viscosity a) (nls a)
                       (pcd_strategy a) true)
      else
        match rest with
        | [::] => SystemExit 2
        | val :: rest' =>
            if String.eqb opt "-l" then
              if py_int val is Some z then
                parse_from rest'
                  (mkNamespace z (stretch a) (viscosity a) (nls a)
                               (pcd_strategy a) (save_results a))
              else SystemExit 2
            else if String.eqb opt "-s" then
              if py_float val is Some q then
                parse_from rest'
                  (mkNamespace (level a) q (viscosity a) (nls a)
                               (pcd_strategy a) (save_results a))
              else SystemExit 2
            else if String.eqb opt "--nu" then
              if py_float val is Some q then
                parse_from rest'
                  (mkNamespace (level a) (stretch a) q (nls a)
                               (pcd_strategy a) (save_results a))
              else SystemExit 2
            else if String.eqb opt "--nls" then
              if is_choice nls_choices val then
                parse_from rest'
                  (mkNamespace (level a) (stretch a) (viscosity a) val
                               (pcd_strategy a) (save_results a))
              else SystemExit 2
            else if String.eqb opt "--PCD" then
              if is_choice pcd_choices val then
                parse_from rest'
                  (mkNamespace (level a) (stretch a) (viscosity a) (nls a)
                               val (save_results a))
              else SystemExit 2
            else SystemExit 2
        end
  end.

Definition parse_args (argv : seq string) : parse_result :=
  parse_from argv default_args.

(** *** The script as a sequence of top-level statements *)

Inductive stmt : Type :=
| Setup                (* lines 23-36   imports, parameters, MPI         *)
| ParseArgs            (* lines 39-56                                    *)
| LoadMesh             (* line  59                                       *)
| RefineMesh           (* lines 61-63                                    *)
| StretchMesh          (* lines 65-77                                    *)
| PlotMesh             (* line  78      plot(mesh)                       *)
| Interactive          (* line  79      interactive()                    *)
| Exit                 (* line  80      exit()                           *)
| FunctionSpaces       (* lines 82-84                                    *)
| BoundaryConditions   (* lines 87-126                                   *)
| Info                 (* lines 129-131                                  *)
| VariationalProblem   (* lines 134-176 forms and problem                *)
| InnerSolverSetup     (* lines 179-213                                  *)
| NonlinearSolverSetup (* lines 216-220                                  *)
| Solve                (* lines 226-229 solver.solve(problem, w.vector())*)
| SplitSolution        (* lines 232-234                                  *)
| SaveResults          (* lines 237-240                                  *)
| Timings              (* lines 243-244                                  *)
| PlotSolution.        (* lines 247-250                                  *)

Definition script : seq (nat * stmt) :=
  [:: (23, Setup); (56, ParseArgs); (59, LoadMesh); (61, RefineMesh);
      (65, StretchMesh); (78, PlotMesh); (79, Interactive); (80, Exit);
      (82, FunctionSpaces); (87, BoundaryConditions); (129, Info);
      (134, VariationalProblem); (179, InnerSolverSetup);
      (216, NonlinearSolverSetup); (226, Solve); (232, SplitSolution);
      (237, SaveResults); (243, Timings); (247, PlotSolution)].

(** What the run has done so far. *)
Record state : Type := mkState {
  args : Namespace;
  refinements : nat;             (* calls of refine(mesh)               *)
  stretched : bool;              (* the coordinates were transformed    *)
  solved : bool;                 (* solver.solve was called             *)
  saved : bool;                  (* result files were written           *)
  executed : seq nat             (* lines of the statements run, newest
                                    first                               *)
}.

Inductive status : Type :=
| Running
| Exited (line : nat) (code : Z).  (* SystemExit raised at [line]       *)

Definition log (ln : nat) (st : state) : state :=
  mkState (args st) (refinements st) (stretched st) (solved st) (saved st)
          (ln :: executed st).

Definition exec (argv : seq string) (ln : nat) (s : stmt) (st : state)
  : state * status :=
  let st := log ln st in
  match s with
  | ParseArgs =>
      match parse_args argv with
      | Parsed a =>
          (mkState a (refinements st) (stretched st) (solved st) (saved st)
                   (executed st), Running)
      | SystemExit c => (st, Exited ln c)
      end
  | RefineMesh =>
      (* numrefs = args.level - 1; for i in range(numrefs): refine *)
      (mkState (args st) (Z.to_nat (level (args st) - 1)) (stretched st)
               (solved st) (saved st) (executed st), Running)
  | StretchMesh =>
      (* if args.stretch != 1.0: ... *)
      (mkState (args st) (refinements st) (~~ Qeq_bool (stretch (args st)) 1)
               (solved st) (saved st) (executed st), Running)
  | Exit => (st, Exited ln 0)
  | Solve =>
      (mkState (args st) (refinements st) (stretched st) true (saved st)
               (executed st), Running)
  | SaveResults =>
      (* if args.save_results: ... *)
      (mkState (args st) (refinements st) (stretched st) (solved st)
               (save_results (args st)) (executed st), Running)
  | _ => (st, Running)
  end.

Fixpoint run_from (argv : seq string) (prog : seq (nat * stmt)) (st : state)
  : state * status :=
  match prog with
  | [::] => (st, Running)
  | (ln, s) :: rest =>
      let: (st', r) := exec argv ln s st in
      if r is Running then run_from argv rest st' else (st', r)
  end.

Definition initial : state := mkState default_args 0 false false false [::].

(** Running the script on [sys.argv[1:]]. *)
Definition run (argv : seq string) : state * status :=
  run_from argv script initial.

End ParseArgs.

(** *** Grid stretching (lines 64-77) *)

Section Stretching.

Local Open Scope R_scope.

(** [x**a] for a base [x >= 0]: [0**a] is 0 for [a > 0] and 1 for [a = 0];
    for [a < 0] numpy yields [inf], which is no real number.  Coordinates
    and exponent are real numbers here and the power is the exact real
    power: the rounding and the underflow of binary64 are not part of the
    model, so it speaks for the program only where the floating-point
    evaluation is exact or a property does not depend on rounding. *)
Definition power (x a : R) : option R :=
  if Req_EM_T x 0 then
    if Req_EM_T a 0 then Some 1
    else if Rlt_dec 0 a then Some 0 else None
  else Some (Rpower x a).

(** [np.sign]. *)
Definition sign (y : R) : R :=
  if Rlt_dec y 0 then -1 else if Rlt_dec 0 y then 1 else 0.

(** [transform_y = lambda y, alpha: np.sign(y)*(abs(y)**alpha)]. *)
Definition transform_y (y alpha : R) : option R :=
  omap (fun r => sign y * r) (power (Rabs y) alpha).

(** The loop body of lines 72-75, for one [xi]. *)
Definition transform_x (xi alpha : R) : option R :=
  if Rle_dec xi 0 then omap (fun r => -1 * r) (power (Rabs xi) alpha)
  else omap (fun r => 5 * r) (power (0.2 * xi) alpha).

(** One mesh vertex [(x, y, z)]; [z] is left alone. *)
Definition stretch_vertex (alpha : R) (v : R * R * R) : option (R * R * R) :=
  let: (x, y, z) := v in
  if transform_y y alpha is Some y' then
    if transform_x x alpha is Some x' then Some (x', y', z) else None
  else None.

(** The update of [mesh.coordinates()] in place, vertex by vertex; a
    coordinate that is no real number makes the whole result undefined. *)
Fixpoint stretch_mesh (alpha : R) (coordinates : seq (R * R * R))
  : option (seq (R * R * R)) :=
  match coordinates with
  | [::] => Some [::]
  | v :: rest =>
      if stretch_vertex alpha v is Some v'
      then omap (cons v') (stretch_mesh alpha rest)
      else None
  end.

Definition in_box (v : R * R * R) : Prop :=
  let: (x, y, z) := v in -1 <= x <= 5 /\ -1 <= y <= 1.

End Stretching.

(** *** Boundary parts and markers (lines 86-111) *)

Definition Gamma0 : SubDomain := fun x on_boundary =>
  let flag := near (coord x 1) 0 && Qle_bool (coord x 0) 0 in
  let flag := flag || (near (coord x 0) 0 && Qle_bool (coord x 1) 0) in
  let flag := flag || near (coord x 1) (-1) in
  let flag := flag || near (coord x 1) 1 in
  flag && on_boundary.

Definition Gamma1 : SubDomain := fun x on_boundary =>
  near (coord x 0) (-1) && on_boundary.

Definition Gamma2 : SubDomain := fun x on_boundary =>
  near (coord x 0) 5 && on_boundary.

Definition Gamma3 : SubDomain := fun x on_boundary =>
  (near (coord x 2) 0 || near (coord x 2) 1) && on_boundary.

Definition boundary_markers : FacetFunction :=
  let bm := set_all 4 in
  let bm := mark Gamma0 bm 0 in
  let bm := mark Gamma1 bm 1 in
  let bm := mark Gamma2 bm 2 in
  mark Gamma3 bm 3.

(** *** Boundary conditions (lines 112-126) *)

Definition noslip : point -> seq Q := fun _ => [:: 0; 0; 0]%Q.

Definition inflow : point -> seq Q := fun x =>
  [:: 4 * coord x 1 * (1 - coord x 1); 0; 0]%Q.

Definition zero : point -> seq Q := fun _ => [:: 0%Q].

Definition bc0 : DirichletBC := mkDirichletBC W_sub0 noslip 0.

Definition bc1 : DirichletBC := mkDirichletBC W_sub0 inflow 1.

Definition bc3 : DirichletBC := mkDirichletBC W_sub0_sub2 zero 3.

(** The inflow boundary carries the inflow profile; the outflow boundary is
    [Gamma2], the part at [x[0] = 5] without a velocity condition. *)
Definition inflow_marker : nat := bc_marker bc1.

Definition outflow_marker : nat := 2.

Definition PCD_BND_MARKER (pcd_strategy : string) : nat :=
  if String.eqb pcd_strategy "ESW" then 2 else 1.

Definition bc_art (pcd_strategy : string) : DirichletBC :=
  mkDirichletBC W_sub1 zero (PCD_BND_MARKER pcd_strategy).

Definition bcs : seq DirichletBC := [:: bc0; bc1; bc3].

Definition bcs_pcd (pcd_strategy : string) : seq DirichletBC :=
  [:: bc_art pcd_strategy].

(** *** Variational forms (lines 133-176) *)

Section VariationalForms.

Variable K : numFieldType.
Variable nu : K.                 (* nu = Constant(args.viscosity) *)

Local Open Scope form_scope.

Definition F : form K :=
  nu *f integral K (GradGrad Iterate_u Test_v) dx
  +f integral K (Convect Iterate_u Iterate_u Test_v) dx
  -f integral K (MulDiv Iterate_p Test_v) dx
  -f integral K (MulDiv Test_q Iterate_u) dx
  -f integral K (Inner Source_f Test_v) dx.

(** The [else] branch of lines 152-158. *)
Definition J_picard : form K :=
  nu *f integral K (GradGrad Trial_u Test_v) dx
  +f integral K (Convect Trial_u Iterate_u Test_v) dx
  -f integral K (MulDiv Trial_p Test_v) dx
  -f integral K (MulDiv Test_q Trial_u) dx.

Definition J (nls : string) : form K :=
  if String.eqb nls "Newton" then derivative F else J_picard.

Definition mp : form K := integral K (Mass Trial_p Test_q) dx.

Definition ap : form K := integral K (SGradGrad Trial_p Test_q) dx.

Definition kp : form K := integral K (SConvect Trial_p Iterate_u Test_q) dx.

(** [fp] after line 167 and after the strategy-dependent update of
    line 171. *)
Definition fp0 : form K := nu *f ap +f kp.

Definition fp (pcd_strategy : string) : form K :=
  if String.eqb pcd_strategy "ESW"
  then fp0 -f integral K (Flux Iterate_u Normal_n Trial_p Test_q) (ds 1)
  else fp0.

Definition problem (nls pcd_strategy : string) : PCDProblem K :=
  if String.eqb pcd_strategy "ESW" then
    {| pb_F := F; pb_bcs := bcs; pb_J := J nls; pb_J_pc := None;
       pb_ap := Some ap; pb_fp := Some (fp pcd_strategy); pb_kp := None;
       pb_mp := Some mp; pb_bcs_pcd := bcs_pcd pcd_strategy; pb_nu := None |}
  else
    {| pb_F := F; pb_bcs := bcs; pb_J := J nls; pb_J_pc := None;
       pb_ap := Some ap; pb_fp := None; pb_kp := Some kp;
       pb_mp := Some mp; pb_bcs_pcd := bcs_pcd pcd_strategy;
       pb_nu := Some nu |}.

End VariationalForms.

(** *** Solver set-up (lines 178-220) *)

Section Solvers.

(** Parameter sets and option tables as the constructors leave them. *)
Variable fieldsplit_defaults : Py.parameters.
Variable nonlinear_defaults : Py.parameters.
Variable subopts_00 subopts_11 : Py.dict.

Definition inner_solver_parameters : Py.parameters :=
  let prm := fieldsplit_defaults in
  let prm := Py.assign prm [:: "monitor_convergence"] (Py.Bool true) in
  let prm := Py.assign prm [:: "relative_tolerance"] (Py.Float (1 # 1000000)) in
  let prm := Py.assign prm [:: "maximum_iterations"] (Py.Int 100) in
  let prm := Py.assign prm [:: "error_on_nonconvergence"] (Py.Bool false) in
  let prm := Py.assign prm [:: "gmres"; "restart"] (Py.Int 100) in
  let prm := Py.assign prm [:: "preconditioner"; "side"] (Py.Str "right") in
  let prm := Py.assign prm [:: "preconditioner"; "fieldsplit"; "type"]
                       (Py.Str "schur") in
  let prm := Py.assign prm
               [:: "preconditioner"; "fieldsplit"; "schur"; "fact_type"]
               (Py.Str "upper") in
  Py.assign prm [:: "preconditioner"; "fieldsplit"; "schur"; "precondition"]
            (Py.Str "user").

Definition OptDB_00 : Py.dict :=
  let db := subopts_00 in
  let db := Py.set db "ksp_type" (Py.Str "preonly") in
  let db := Py.set db "pc_type" (Py.Str "lu") in
  Py.set db "pc_factor_mat_solver_package" (Py.Str "mumps").

Definition OptDB_11 (pcd_strategy : string) : Py.dict :=
  let db := subopts_11 in
  let db := Py.set db "ksp_type" (Py.Str "preonly") in
  let db := Py.set db "pc_type" (Py.Str "python") in
  let db := Py.set db "pc_python_type"
              (Py.Str (String.append "fenapack.PCDPC_" pcd_strategy)) in
  let db := Py.set db "PCD_Ap_ksp_type" (Py.Str "preonly") in
  let db := Py.set db "PCD_Ap_pc_type" (Py.Str "lu") in
  let db := Py.set db "PCD_Ap_pc_factor_mat_solver_package" (Py.Str "mumps") in
  let db := Py.set db "PCD_Mp_ksp_type" (Py.Str "preonly") in
  let db := Py.set db "PCD_Mp_pc_type" (Py.Str "lu") in
  Py.set db "PCD_Mp_pc_factor_mat_solver_package" (Py.Str "mumps").

Definition inner_solver (pcd_strategy : string) : FieldSplitSolver :=
  mkFieldSplitSolver "gmres" inner_solver_parameters OptDB_00
                     (OptDB_11 pcd_strategy).

Definition solver_parameters : Py.parameters :=
  let prm := nonlinear_defaults in
  let prm := Py.assign prm [:: "relative_tolerance"] (Py.Float (1 # 100000)) in
  let prm := Py.assign prm [:: "maximum_iterations"] (Py.Int 25) in
  Py.assign prm [:: "error_on_nonconvergence"] (Py.Bool false).

Definition solver (pcd_strategy : string) : NonlinearSolver :=
  mkNonlinearSolver (inner_solver pcd_strategy) solver_parameters.

End Solvers.

End Demo.

(* ===================================================================== *)
(** ** test/bench/test_pcd_scaling.py                                     *)
(* ===================================================================== *)

Module Bench.

Import Ufl Dolfin Fenapack.
Local Open Scope string_scope.

(** *** [create_function_space]: boundary parts and markers *)

Definition Gamma0 : SubDomain := fun x on_boundary => on_boundary.

Definition Gamma1 : SubDomain := fun x on_boundary =>
  on_boundary && near (coord x 0) (-1).

Definition Gamma2 : SubDomain := fun x on_boundary =>
  on_boundary && near (coord x 0) 5.

Definition boundary_markers : FacetFunction :=
  let bm := set_all 3 in         (* interior facets *)
  let bm := mark Gamma0 bm 0 in  (* no-slip facets  *)
  let bm := mark Gamma1 bm 1 in  (* inlet facets    *)
  mark Gamma2 bm 2.              (* outlet facets   *)

Definition inlet_marker : nat := 1.

Definition outlet_marker : nat := 2.

Definition noslip : point -> seq Q := fun _ => [:: 0; 0]%Q.

Definition inflow : point -> seq Q := fun x =>
  [:: 4 * coord x 1 * (1 - coord x 1); 0]%Q.

Definition zero : point -> seq Q := fun _ => [:: 0%Q].

Section Forms.

Variable K : numFieldType.

Local Open Scope form_scope.
Local Open Scope ring_scope.

(** [(1.0-alpha)*...]: for [alpha == 1.0] the factor is the Python float
    [0.0] and UFL drops the product; otherwise it is a UFL expression. *)
Definition one_minus_alpha_term (alpha : K) (a : form K) : form K :=
  if alpha == 1 then [::] else (1 - alpha) *f a.

(** [create_forms(w, boundary_markers, nu, alpha, nls, ls)].  A tag that
    matches no branch leaves [J] or [J_pc] unbound, which Python reports
    when the name is read: [None] here. *)
Definition create_forms (nu alpha : K) (nls ls : string)
  : option (form K * seq DirichletBC * form K * option (form K)) :=
  let F :=
    nu *f integral K (GradGrad Iterate_u Test_v) dx
    +f alpha *f integral K (Convect Iterate_u Iterate_u Test_v) dx
    +f one_minus_alpha_term alpha
         (integral K (DivOuter Iterate_u Iterate_u Test_v) dx)
    -f integral K (MulDiv Iterate_p Test_v) dx
    -f integral K (MulDiv Test_q Iterate_u) dx in
  let J :=
    if String.eqb nls "picard" then
      Some (nu *f integral K (GradGrad Trial_u Test_v) dx
            +f alpha *f integral K (Convect Trial_u Iterate_u Test_v) dx
            +f one_minus_alpha_term alpha
                 (integral K (DivOuter Trial_u Iterate_u Test_v) dx)
            -f integral K (MulDiv Trial_p Test_v) dx
            -f integral K (MulDiv Test_q Trial_u) dx)
    else if String.eqb nls "newton" then Some (derivative F)
    else None in
  let bc0 := mkDirichletBC W_sub0 noslip 0 in
  let bc1 := mkDirichletBC W_sub0 inflow 1 in
  match J with
  | None => None
  | Some J =>
      if String.eqb ls "iterative" then
        Some (F, [:: bc0; bc1], J,
              Some (J +f integral K
                      (Streamline Trial_u Iterate_u Test_v Iterate_u) dx))
      else if String.eqb ls "direct" then Some (F, [:: bc0; bc1], J, None)
      else None
  end.

(** [create_pcd_problem(F, bcs, J, J_pc, w, nu, boundary_markers,
    pcd_variant)]; an unknown variant leaves [bc_pcd] unbound. *)
Definition bc_pcd (pcd_variant : string) : option DirichletBC :=
  if String.eqb pcd_variant "BRM1" then Some (mkDirichletBC W_sub1 zero 1)
  else if String.eqb pcd_variant "BRM2" then Some (mkDirichletBC W_sub1 zero 2)
  else None.

Definition mp (nu : K) : form K := nu^-1 *f integral K (Mass Trial_p Test_q) dx.

Definition ap : form K := integral K (SGradGrad Trial_p Test_q) dx.

Definition kp (nu : K) (pcd_variant : string) : form K :=
  let kp := nu^-1 *f integral K (SConvect Trial_p Iterate_u Test_q) dx in
  if String.eqb pcd_variant "BRM2"
  then kp -f nu^-1 *f integral K (Flux Iterate_u Normal_n Trial_p Test_q) (ds 1)
  else kp.

Definition create_pcd_problem (F : form K) (bcs : seq DirichletBC)
    (J : form K) (J_pc : option (form K)) (nu : K) (pcd_variant : string)
  : option (PCDProblem K) :=
  match bc_pcd pcd_variant with
  | None => None
  | Some bc =>
      Some {| pb_F := F; pb_bcs := bcs; pb_J := J; pb_J_pc := J_pc;
              pb_ap := Some ap; pb_fp := None;
              pb_kp := Some (kp nu pcd_variant); pb_mp := Some (mp nu);
              pb_bcs_pcd := [:: bc]; pb_nu := None |}
  end.

End Forms.

(** *** [create_solver(comm, pcd_variant, ls, mumps_debug)] *)

Section CreateSolver.

(** [get_random_string()], and the parameter sets the two constructors
    start from. *)
Variable random_string : string.
Variable krylov_defaults newton_defaults : Py.parameters.

Definition options_prefix : string :=
  String.append "s" (String.append random_string "_").

Definition opt (name : string) : string := String.append options_prefix name.

(** The option table after the calls of [PETScOptions.set]; [None] is the
    [assert False] of an unknown [ls]. *)
Definition create_options (PETScOptions : Py.dict) (pcd_variant ls : string)
    (mumps_debug : bool) : option Py.dict :=
  let db := PETScOptions in
  let db := Py.set db (opt "ksp_gmres_restart") (Py.Int 150) in
  let db := Py.set db (opt "fieldsplit_p_pc_python_type")
              (Py.Str (String.append "fenapack.PCDPC_" pcd_variant)) in
  if String.eqb ls "iterative" then
    let db := Py.set db (opt "fieldsplit_u_ksp_type") (Py.Str "richardson") in
    let db := Py.set db (opt "fieldsplit_u_ksp_max_it") (Py.Int 1) in
    let db := Py.set db (opt "fieldsplit_u_pc_type") (Py.Str "hypre") in
    let db := Py.set db (opt "fieldsplit_u_pc_hypre_type")
                (Py.Str "boomeramg") in
    let db := Py.set db (opt "fieldsplit_p_PCD_Ap_ksp_type")
                (Py.Str "richardson") in
    let db := Py.set db (opt "fieldsplit_p_PCD_Ap_ksp_max_it") (Py.Int 2) in
    let db := Py.set db (opt "fieldsplit_p_PCD_Ap_pc_type") (Py.Str "hypre") in
    let db := Py.set db (opt "fieldsplit_p_PCD_Ap_pc_hypre_type")
                (Py.Str "boomeramg") in
    let db := Py.set db (opt "fieldsplit_p_PCD_Mp_ksp_type")
                (Py.Str "chebyshev") in
    let db := Py.set db (opt "fieldsplit_p_PCD_Mp_ksp_max_it") (Py.Int 5) in
    let db := Py.set db (opt "fieldsplit_p_PCD_Mp_ksp_chebyshev_eigenvalues")
                (Py.Str "0.5, 2.0") in
    Some (Py.set db (opt "fieldsplit_p_PCD_Mp_pc_type") (Py.Str "jacobi"))
  else if String.eqb ls "direct" then
    if mumps_debug then
      let db := Py.set db (opt "fieldsplit_u_mat_mumps_icntl_4") (Py.Int 2) in
      let db := Py.set db (opt "fieldsplit_p_PCD_Ap_mat_mumps_icntl_4")
                  (Py.Int 2) in
      Some (Py.set db (opt "fieldsplit_p_PCD_Mp_mat_mumps_icntl_4") (Py.Int 2))
    else Some db
  else None.

Definition create_solver (PETScOptions : Py.dict) (pcd_variant ls : string)
    (mumps_debug : bool) : option (PCDNewtonSolver * Py.dict) :=
  let prm := Py.assign krylov_defaults [:: "relative_tolerance"]
               (Py.Float (1 # 1000000)) in
  match create_options PETScOptions pcd_variant ls mumps_debug with
  | None => None
  | Some db =>
      let linear_solver := mkPCDKrylovSolver options_prefix prm db in
      Some (mkPCDNewtonSolver linear_solver
              (Py.assign newton_defaults [:: "relative_tolerance"]
                 (Py.Float (1 # 100000))),
            db)
  end.

End CreateSolver.

(** *** [test_scaling_mesh] *)

Section Test.

Variable K : numFieldType.

(** [get_random_string()] at each refinement level, the parameter sets the
    solver constructors start from, and what [solver.solve] and
    [solver.krylov_iterations()] report at a level: Newton iterations,
    converged flag, Krylov iterations. *)
Variable random_string : nat -> string.
Variable krylov_defaults newton_defaults : Py.parameters.
Variable solve : nat -> PCDProblem K -> PCDNewtonSolver -> nat * bool * nat.

(** The "Prepare" block of one level (lines 210-221): the options are
    cleared, then forms, problem and solver are created; an exception in
    one of them is [None]. *)
Definition prepare (level : nat) (nu alpha : K) (nls pcd_variant ls : string)
  : option (PCDProblem K * PCDNewtonSolver * Py.dict) :=
  match create_forms nu alpha nls ls with
  | None => None
  | Some (F, bcs, J, J_pc) =>
      match create_pcd_problem F bcs J J_pc nu pcd_variant with
      | None => None
      | Some pcd_problem =>
          match create_solver (random_string level) krylov_defaults
                  newton_defaults Py.empty pcd_variant ls false with
          | None => None
          | Some (solver, db) => Some (pcd_problem, solver, db)
          end
      end
  end.

(** One entry of [results]. *)
Record row : Type := mkRow {
  newton_iterations : nat;
  krylov_iterations : nat
}.

Inductive test_result : Type :=
| Passed (results : seq (nat * row))
| AssertionError (level : nat) (results : seq (nat * row))
                                      (* [assert converged] failed      *)
| PrepareError (level : nat).         (* exception in the Prepare block *)

(** The loop over the refinement levels (lines 208-245); [results] is the
    dictionary filled so far, in insertion order. *)
Fixpoint levels_loop (levels : seq nat) (results : seq (nat * row))
    (nu alpha : K) (nls pcd_variant ls : string) : test_result :=
  match levels with
  | [::] => Passed results
  | level :: rest =>
      match prepare level nu alpha nls pcd_variant ls with
      | None => PrepareError level
      | Some (pcd_problem, solver, _) =>
          let: (newton_its, converged, krylov_its) :=
            solve level pcd_problem solver in
          if converged
          then levels_loop rest
                 (rcons results (level, mkRow newton_its krylov_its))
                 nu alpha nls pcd_variant ls
          else AssertionError level results
      end
  end.

Definition test_scaling_mesh (nu alpha : K) (nls pcd_variant ls : string)
  : test_result :=
  levels_loop (iota 0 5) [::] nu alpha nls pcd_variant ls.

End Test.

(** *** The parametrisation of [test_scaling_mesh] *)

Definition tested_nls : seq string := [:: "picard"; "newton"].

Definition tested_pcd_variant : seq string := [:: "BRM1"; "BRM2"].

Definition tested_ls : seq string := [:: "direct"; "iterative"].

Definition tested_levels : seq nat := iota 0 5.     (* range(5) *)

End Bench.

(* ===================================================================== *)
(** ** The solver core driven by the two scripts                          *)
(* ===================================================================== *)

Module Core.

(** Modelled from the spec: the error taxonomy of the solver classes, which
    are not among the sources (section 7). *)
Inductive error : Type :=
| AssemblyError
| FactorizationError
| LinearNonConvergence
| NonlinearNonConvergence.

(** Modelled from the spec: a call of a solver class, not among the
    sources, either returns a result or raises one of the errors
    (section 7). *)
Inductive outcome (A : Type) : Type :=
| Returned (a : A)
| Raised (e : error).

Arguments Returned {A} a.
Arguments Raised {A} e.

(** *** FieldSplitKrylovSolver *)

(** Modelled from the spec: the parameters of the Krylov solver that govern
    its iteration; the class is not among the sources (section 4.3). *)
Record KrylovParameters : Type := mkKrylovParameters {
  k_relative_tolerance : Q;
  k_maximum_iterations : nat;
  k_error_on_nonconvergence : bool
}.

(** Modelled from the spec: the defaults of the Krylov solver, whose class
    is not among the sources (section 4.3 and 6: relative tolerance 1e-6,
    maximum iterations 100, error on nonconvergence false). *)
Definition default_krylov_parameters : KrylovParameters :=
  mkKrylovParameters (1 # 1000000) 100 false.

Section Krylov.

(** The state of one linear solve, its relative (unpreconditioned)
    residual and one right-preconditioned GMRES iteration. *)
Variable X : Type.
Variable relres : X -> Q.
Variable gmres_step : X -> X.

(** Modelled from the spec: the result of FieldSplitKrylovSolver.solve, not
    among the sources (section 4.3: the iterate, the converged flag, the
    final relative residual and the iteration count). *)
Record KrylovResult : Type := mkKrylovResult {
  kr_solution : X;
  kr_converged : bool;
  kr_residual : Q;
  kr_iterations : nat
}.

(** Modelled from the spec: the iteration of FieldSplitKrylovSolver.solve,
    whose class is not among the sources (section 4.3: iterate until the
    relative residual is below the tolerance or the iteration count has
    reached the maximum). *)
Fixpoint krylov_iterate (rtol : Q) (budget k : nat) (x : X) : KrylovResult :=
  if Py.Qltb (relres x) rtol then mkKrylovResult x true (relres x) k
  else
    match budget with
    | 0 => mkKrylovResult x false (relres x) k
    | budget'.+1 => krylov_iterate rtol budget' k.+1 (gmres_step x)
    end.

(** Modelled from the spec: FieldSplitKrylovSolver.solve, not among the
    sources (section 4.3: non-convergence is returned, and is fatal only
    under "error on non-convergence"). *)
Definition krylov_solve (prm : KrylovParameters) (x0 : X)
  : outcome KrylovResult :=
  let res := krylov_iterate (k_relative_tolerance prm)
               (k_maximum_iterations prm) 0 x0 in
  if ~~ kr_converged res && k_error_on_nonconvergence prm
  then Raised LinearNonConvergence
  else Returned res.

End Krylov.

(** *** NonlinearSolver *)

(** Modelled from the spec: the parameters of the nonlinear solver that
    govern its iteration; the class is not among the sources
    (section 4.4). *)
Record NonlinearParameters : Type := mkNonlinearParameters {
  n_relative_tolerance : Q;
  n_maximum_iterations : nat;
  n_error_on_nonconvergence : bool
}.

(** Modelled from the spec: the defaults of the nonlinear solver, whose
    class is not among the sources (section 4.4 and 6: relative tolerance
    1e-5, maximum iterations 25, error on nonconvergence false). *)
Definition default_nonlinear_parameters : NonlinearParameters :=
  mkNonlinearParameters (1 # 100000) 25 false.

(** Modelled from the spec: the states of the state machine of
    NonlinearSolver, whose class is not among the sources (section 4.4). *)
Inductive phase : Type :=
| Initializing
| IteratingNewtonOrPicard
| Converged
| Diverged
| MaxIterationsReached.

Definition terminal (ph : phase) : bool :=
  match ph with
  | Converged | Diverged | MaxIterationsReached => true
  | _ => false
  end.

Definition is_converged (ph : phase) : bool :=
  if ph is Converged then true else false.

Section Nonlinear.

(** The mixed solution vector, the operators assembled at an iterate
    (LinearOperatorSet.build), the Krylov state with its residual and
    iteration on those operators, and the update of the iterate by a
    correction. *)
Variable W : Type.
Variable S : Type.
Variable X : Type.
Variable residual_norm : W -> Q.
Variable build : W -> S.
Variable relres : S -> X -> Q.
Variable gmres_step : S -> X -> X.
Variable x0 : X.
Variable update : W -> X -> W.

Variable kprm : KrylovParameters.
Variable prm : NonlinearParameters.

(** Modelled from the spec: the SolverState of NonlinearSolver, whose class
    is not among the sources (section 3), with the aggregated Krylov
    iteration count. *)
Record SolverState : Type := mkSolverState {
  st_phase : phase;
  st_iterations : nat;
  st_initial_norm : Q;
  st_norm : Q;
  st_solution : W;
  st_krylov_iterations : nat
}.

Definition init (w0 : W) : SolverState :=
  mkSolverState Initializing 0 0 0 w0 0.

(** Modelled from the spec: the linear correction step of NonlinearSolver,
    not among the sources (section 4.4: build the operators at the iterate
    and call the Krylov solver on them). *)
Definition linear_solve (w : W) : outcome (KrylovResult X) :=
  krylov_solve (relres (build w)) (gmres_step (build w)) kprm x0.

(** The result of that linear solve when non-convergence is not
    escalated. *)
Definition linear_result (w : W) : KrylovResult X :=
  krylov_iterate (relres (build w)) (gmres_step (build w))
    (k_relative_tolerance kprm) (k_maximum_iterations kprm) 0 x0.

(** Modelled from the spec: the convergence test of NonlinearSolver, whose
    class is not among the sources (section 4.4: residual norm over
    initial norm below the relative tolerance). *)
Definition convergence_test (st : SolverState) : bool :=
  Py.Qltb (st_norm st / st_initial_norm st)%Q (n_relative_tolerance prm).

(** Modelled from the spec: one transition of the state machine of
    NonlinearSolver, whose class is not among the sources (section 4.4). *)
Definition transition (st : SolverState) : SolverState :=
  match st_phase st with
  | Initializing =>
      let r := residual_norm (st_solution st) in
      mkSolverState IteratingNewtonOrPicard (st_iterations st) r r
                    (st_solution st) (st_krylov_iterations st)
  | IteratingNewtonOrPicard =>
      if convergence_test st
      then mkSolverState Converged (st_iterations st) (st_initial_norm st)
             (st_norm st) (st_solution st) (st_krylov_iterations st)
      else if n_maximum_iterations prm <= st_iterations st
      then mkSolverState MaxIterationsReached (st_iterations st)
             (st_initial_norm st) (st_norm st) (st_solution st)
             (st_krylov_iterations st)
      else
        match linear_solve (st_solution st) with
        | Raised _ =>
            mkSolverState Diverged (st_iterations st) (st_initial_norm st)
              (st_norm st) (st_solution st) (st_krylov_iterations st)
        | Returned res =>
            let w := update (st_solution st) (kr_solution res) in
            mkSolverState IteratingNewtonOrPicard (st_iterations st).+1
              (st_initial_norm st) (residual_norm w) w
              (st_krylov_iterations st + kr_iterations res)
        end
  | _ => st
  end.

(** Modelled from the spec: the loop of NonlinearSolver.solve, not among
    the sources (section 4.4).  The machine is run until it is terminal:
    one transition out of [Initializing], at most [maximum_iterations]
    corrections, and one last test. *)
Definition run (w0 : W) : SolverState :=
  iter (n_maximum_iterations prm).+2 transition (init w0).

(** Modelled from the spec: what NonlinearSolver.solve returns, the class
    not being among the sources (sections 4.4 and 7: iteration count,
    converged flag, aggregate Krylov iteration count, and the solution
    vector reached). *)
Record Result : Type := mkResult {
  iteration_count : nat;
  converged : bool;
  krylov_iterations : nat;
  solution : W
}.

Definition result_of (st : SolverState) : Result :=
  mkResult (st_iterations st) (is_converged (st_phase st))
           (st_krylov_iterations st) (st_solution st).

(** Modelled from the spec: NonlinearSolver.solve, not among the sources
    (sections 4.4 and 7: the result is returned, non-convergence of the
    outer loop is raised only when escalated, a failed linear solve under
    "error on nonconvergence" is fatal). *)
Definition solve (w0 : W) : outcome Result :=
  let st := run w0 in
  match st_phase st with
  | Diverged => Raised LinearNonConvergence
  | MaxIterationsReached =>
      if n_error_on_nonconvergence prm then Raised NonlinearNonConvergence
      else Returned (result_of st)
  | _ => Returned (result_of st)
  end.

(** The iterates the loop visits when every correction is accepted. *)
Fixpoint iterate (k : nat) (w0 : W) : W :=
  match k with
  | 0 => w0
  | k'.+1 =>
      let w := iterate k' w0 in update w (kr_solution (linear_result w))
  end.

(** The Krylov iterations spent on the correction at [w]. *)
Definition inner_iterations (w : W) : nat := kr_iterations (linear_result w).

(** What holds of every state the machine reaches from [init w0]. *)
Definition invariant (w0 : W) (st : SolverState) : Prop :=
  [/\ st_solution st = iterate (st_iterations st) w0,
      st_krylov_iterations st
      = \sum_(i < st_iterations st) inner_iterations (iterate i w0)
    & match st_phase st with
      | Initializing => st_iterations st = 0
      | IteratingNewtonOrPicard =>
          st_iterations st <= n_maximum_iterations prm
      | Converged =>
          convergence_test st /\ st_iterations st <= n_maximum_iterations prm
      | MaxIterationsReached =>
          ~~ convergence_test st
          /\ st_iterations st = n_maximum_iterations prm
      | Diverged =>
          [/\ ~~ convergence_test st,
              st_iterations st < n_maximum_iterations prm
            & k_error_on_nonconvergence kprm]
      end].

(** The residual norm at [w] over the residual norm at the initial guess
    [w0]: the quantity the convergence test is about. *)
Definition relative_residual (w0 w : W) : Q :=
  (residual_norm w / residual_norm w0)%Q.

(** What the norms stored in a state are, once the machine has left
    [Initializing]: the initial norm is the residual norm at [w0], the
    current norm is the residual norm at the current iterate, and at no
    earlier iterate was the relative residual below the tolerance. *)
Definition residuals_tracked (w0 : W) (st : SolverState) : Prop :=
  if st_phase st is Initializing then True
  else
    [/\ st_initial_norm st = residual_norm w0,
        st_norm st = residual_norm (st_solution st)
      & forall i, i < st_iterations st ->
          ~~ Py.Qltb (relative_residual w0 (iterate i w0))
                     (n_relative_tolerance prm)].

End Nonlinear.

(** Reading the solver parameters of a script into the core. *)
Definition float_of (v : option Py.value) (d : Q) : Q :=
  if v is Some (Py.Float q) then q else d.

Definition nat_of (v : option Py.value) (d : nat) : nat :=
  if v is Some (Py.Int z) then Z.to_nat z else d.

Definition bool_of (v : option Py.value) (d : bool) : bool :=
  if v is Some (Py.Bool b) then b else d.

Local Open Scope string_scope.

Definition krylov_parameters_of (prm : Py.parameters) : KrylovParameters :=
  mkKrylovParameters
    (float_of (prm [:: "relative_tolerance"])
       (k_relative_tolerance default_krylov_parameters))
    (nat_of (prm [:: "maximum_iterations"])
       (k_maximum_iterations default_krylov_parameters))
    (bool_of (prm [:: "error_on_nonconvergence"])
       (k_error_on_nonconvergence default_krylov_parameters)).

Definition nonlinear_parameters_of (prm : Py.parameters)
  : NonlinearParameters :=
  mkNonlinearParameters
    (float_of (prm [:: "relative_tolerance"])
       (n_relative_tolerance default_nonlinear_parameters))
    (nat_of (prm [:: "maximum_iterations"])
       (n_maximum_iterations default_nonlinear_parameters))
    (bool_of (prm [:: "error_on_nonconvergence"])
       (n_error_on_nonconvergence default_nonlinear_parameters)).

(** *** PCDPreconditioner *)

Section PCD.

Variable K : numFieldType.
Variable n : nat.

Local Open Scope ring_scope.

(** Modelled from the spec: the convection-diffusion operator built from
    the operators passed to the problem, by code that is not among the
    sources (section 4.1: Fp = viscosity * Ap + Kp). *)
Definition build_Fp (viscosity : K) (Ap Kp : 'M[K]_n) : 'M[K]_n :=
  viscosity *: Ap + Kp.

(** Modelled from the spec: PCDPreconditioner.apply, not among the sources
    (section 4.2: a solve against Ap, a multiplication by Fp, a solve
    against Mp; a singular Ap or Mp is a FactorizationError). *)
Definition pcd_apply (Mp Fp Ap : 'M[K]_n) (r : 'cV[K]_n)
  : outcome 'cV[K]_n :=
  if (Ap \in unitmx) && (Mp \in unitmx)
  then Returned (invmx Mp *m (Fp *m (invmx Ap *m r)))
  else Raised FactorizationError.

End PCD.

End Core.

(* ===================================================================== *)
(** ** Vocabulary of the statements                                       *)
(* ===================================================================== *)

(** What [create_forms] returns as Jacobian under the two solver tags. *)
Definition bench_jacobians (K : numFieldType) (nu alpha : K) (ls : string)
  : Prop :=
  (exists F bcs J_pc,
      Bench.create_forms nu alpha "newton" ls
      = Some (F, bcs, Ufl.derivative F, J_pc))
  /\ (exists F bcs J J_pc,
        Bench.create_forms nu alpha "picard" ls = Some (F, bcs, J, J_pc)
        /\ all Ufl.is_iterate_u (Ufl.convecting J)).

(** What [create_solver] fixes for the Krylov solver under mode [ls]. *)
Definition bench_krylov_configured (random_string : string)
    (krylov_defaults newton_defaults : Py.parameters) (PETScOptions : Py.dict)
    (pcd_variant ls : string) (mumps_debug : bool) : Prop :=
  exists solver db,
    [/\ Bench.create_solver random_string krylov_defaults newton_defaults
          PETScOptions pcd_variant ls mumps_debug = Some (solver, db),
        Fenapack.ks_parameters (Fenapack.nw_linear_solver solver)
          [:: "relative_tolerance"]%string
        = Some (Py.Float (1 # 1000000)),
        exists r, db (Bench.opt random_string "ksp_gmres_restart")
                  = Some (Py.Int r) /\ (100 <= r <= 150)%Z
      & (forall k, krylov_defaults k = None) ->
        Core.krylov_parameters_of
          (Fenapack.ks_parameters (Fenapack.nw_linear_solver solver))
        = Core.default_krylov_parameters].

(** The statements after [exit()]. *)
Definition after_exit : seq (nat * Demo.stmt) := drop 8 Demo.script.

(** Both tags of a namespace are among the declared choices. *)
Definition valid_choices (a : Demo.Namespace) : bool :=
  Demo.is_choice Demo.nls_choices (Demo.nls a)
  && Demo.is_choice Demo.pcd_choices (Demo.pcd_strategy a).

(** The tags [create_forms], [create_pcd_problem] and [create_solver]
    have a branch for. *)
Definition nls_known (nls : string) : bool :=
  String.eqb nls "picard" || String.eqb nls "newton".

Definition pcd_variant_known (pcd_variant : string) : bool :=
  String.eqb pcd_variant "BRM1" || String.eqb pcd_variant "BRM2".

Definition ls_known (ls : string) : bool :=
  String.eqb ls "iterative" || String.eqb ls "direct".

(** What the solve of one level reports, on the problem and solver the
    Prepare block builds for it. *)
Definition level_report (K : numFieldType) (random_string : nat -> string)
    (krylov_defaults newton_defaults : Py.parameters)
    (solve : nat -> Fenapack.PCDProblem K -> Fenapack.PCDNewtonSolver
             -> nat * bool * nat)
    (nu alpha : K) (nls pcd_variant ls : string) (level : nat)
  : nat * bool * nat :=
  match Bench.prepare random_string krylov_defaults newton_defaults level
          nu alpha nls pcd_variant ls with
  | Some (pb, solver, _) => solve level pb solver
  | None => (0, false, 0)
  end.

Definition level_converged (report : nat -> nat * bool * nat) (level : nat)
  : bool := (report level).1.2.

Definition level_row (report : nat -> nat * bool * nat) (level : nat)
  : nat * Bench.row :=
  (level, Bench.mkRow (report level).1.1 (report level).2).

(** *** A scalar model problem

    The residual of the iterate [w] is [|w|]; the correction sought at [w]
    is [w] itself, and one Krylov step halves the distance to it. *)

Module Scalar.

Definition residual_norm (w : Q) : Q := Qabs w.

Definition build (w : Q) : Q := w.

Definition relres (s x : Q) : Q := Qabs (s - x).

Definition gmres_step (s x : Q) : Q := ((x + s) / 2)%Q.

Definition x0 : Q := 0.

Definition update (w x : Q) : Q := (w - x)%Q.

(** Budgets that suffice, and budgets that do not. *)
Definition kprm_ample : Core.KrylovParameters :=
  Core.mkKrylovParameters (1 # 10) 10 false.

Definition prm_ample : Core.NonlinearParameters :=
  Core.mkNonlinearParameters (1 # 10) 10 false.

Definition kprm_tight : Core.KrylovParameters :=
  Core.mkKrylovParameters (1 # 1000) 2 false.

Definition prm_tight : Core.NonlinearParameters :=
  Core.mkNonlinearParameters (1 # 1000) 2 false.

Definition summary (r : Core.outcome (Core.Result Q))
  : option (nat * bool * nat) :=
  if r is Core.Returned res
  then Some (Core.iteration_count res, Core.converged res,
             Core.krylov_iterations res)
  else None.

End Scalar.

(* ===================================================================== *)
(** ** Properties                                                         *)
(* ===================================================================== *)

(** *** Strings and dictionaries *)

Lemma eqb_refl (s : string) : String.eqb s s = true.
Proof. exact: String.eqb_refl. Qed.

Lemma append_eqb (p a b : string) :
  String.eqb (String.append p a) (String.append p b) = String.eqb a b.
Proof.
elim: p => [|c p IH] //=.
by rewrite Ascii.eqb_refl.
Qed.

Lemma set_same (d : Py.dict) (k : string) (v : Py.value) :
  Py.set d k v k = Some v.
Proof. by rewrite /Py.set eqb_refl. Qed.

Lemma set_other (d : Py.dict) (k k' : string) (v : Py.value) :
  String.eqb k' k = false -> Py.set d k v k' = d k'.
Proof. by rewrite /Py.set => ->. Qed.

(** *** Assembly is linear in the form *)

Section AssemblyLemmas.

Variable K : numFieldType.
Variable n : nat.
Variable elem : Ufl.integrand -> Ufl.measure -> 'M[K]_n.

Import Ufl.
Local Open Scope ring_scope.
Local Open Scope form_scope.

Lemma assemble_integral (i : integrand) (m : measure) :
  assemble elem (integral K i m) = elem i m.
Proof. by rewrite /assemble /integral big_seq1 scale1r. Qed.

Lemma assemble_fadd (a b : form K) :
  assemble elem (a +f b) = assemble elem a + assemble elem b.
Proof. by rewrite /assemble /fadd big_cat. Qed.

Lemma assemble_fscale (c : K) (a : form K) :
  assemble elem (c *f a) = c *: assemble elem a.
Proof.
rewrite /assemble /fscale big_map scaler_sumr.
by apply: eq_bigr => t _; rewrite scalerA.
Qed.

Lemma assemble_fsub (a b : form K) :
  assemble elem (a -f b) = assemble elem a - assemble elem b.
Proof. by rewrite /fsub /fneg assemble_fadd assemble_fscale scaleN1r. Qed.

Lemma assemble_nil : assemble elem [::] = 0.
Proof. by rewrite /assemble big_nil. Qed.

(** The derivative is linear in the form as well. *)
Lemma derivative_fadd (a b : form K) :
  derivative (a +f b) = derivative a +f derivative b.
Proof. by rewrite /derivative /fadd map_cat flatten_cat. Qed.

Lemma derivative_fscale (c : K) (a : form K) :
  derivative (c *f a) = c *f derivative a.
Proof.
rewrite /derivative /fscale; elim: a => [|t a IH] //=.
by rewrite map_cat IH -!map_comp.
Qed.

End AssemblyLemmas.

(** *** Boundary markers *)

(** In the benchmark the facets at [x[0] = -1] carry marker 1 and those at
    [x[0] = 5] marker 2, whatever else they satisfy. *)
Lemma bench_outlet_facets (x : Dolfin.point) (on_boundary : bool) :
  Bench.Gamma2 x on_boundary ->
  Bench.boundary_markers x on_boundary = Bench.outlet_marker.
Proof. by rewrite /Bench.boundary_markers /Dolfin.mark => ->. Qed.

Lemma bench_inlet_facets (x : Dolfin.point) (on_boundary : bool) :
  Bench.Gamma1 x on_boundary -> ~~ Bench.Gamma2 x on_boundary ->
  Bench.boundary_markers x on_boundary = Bench.inlet_marker.
Proof.
by rewrite /Bench.boundary_markers /Dolfin.mark => -> /negbTE ->.
Qed.

Lemma demo_inflow_facets (x : Dolfin.point) (on_boundary : bool) :
  Demo.Gamma1 x on_boundary -> ~~ Demo.Gamma2 x on_boundary ->
  ~~ Demo.Gamma3 x on_boundary ->
  Demo.boundary_markers x on_boundary = Demo.inflow_marker.
Proof.
by rewrite /Demo.boundary_markers /Dolfin.mark => -> /negbTE -> /negbTE ->.
Qed.

Lemma demo_outflow_facets (x : Dolfin.point) (on_boundary : bool) :
  Demo.Gamma2 x on_boundary -> ~~ Demo.Gamma3 x on_boundary ->
  Demo.boundary_markers x on_boundary = Demo.outflow_marker.
Proof.
by rewrite /Demo.boundary_markers /Dolfin.mark => -> /negbTE ->.
Qed.

(** A facet point in the middle of the plane [x[0] = -1] is an inflow
    facet, one in the middle of [x[0] = 5] an outflow facet; the profile
    prescribed on the former has a positive [x[0]]-velocity there. *)
Example demo_inflow_point :
  Demo.boundary_markers [:: -1; 1 # 2; 1 # 2]%Q true = Demo.inflow_marker
  /\ Demo.boundary_markers [:: 5; 1 # 2; 1 # 2]%Q true = Demo.outflow_marker
  /\ Py.Qltb 0 (Dolfin.coord (Demo.inflow [:: -1; 1 # 2; 1 # 2]%Q) 0).
Proof. by vm_compute. Qed.

Example bench_inlet_point :
  Bench.boundary_markers [:: -1; 1 # 2]%Q true = Bench.inlet_marker
  /\ Bench.boundary_markers [:: 5; 0]%Q true = Bench.outlet_marker
  /\ Bench.boundary_markers [:: 2; 1]%Q true = 0
  /\ Bench.boundary_markers [:: 2; 0]%Q false = 3.
Proof. by vm_compute. Qed.

(** *** The PCD strategy: artificial pressure condition and Robin term *)

Section Strategy.

Variable K : numFieldType.
Variable nu : K.

Import Ufl Dolfin.
Local Open Scope string_scope.

Lemma demo_fp_surface_markers (pcd_strategy : string) :
  surface_markers (Demo.fp nu pcd_strategy)
  = if String.eqb pcd_strategy "ESW" then [:: Demo.inflow_marker] else [::].
Proof. by rewrite /Demo.fp; case: (String.eqb _ _). Qed.

Lemma bench_kp_surface_markers (pcd_variant : string) :
  surface_markers (Bench.kp nu pcd_variant)
  = if String.eqb pcd_variant "BRM2" then [:: Bench.inlet_marker] else [::].
Proof. by rewrite /Bench.kp; case: (String.eqb _ _). Qed.

Lemma bench_bc_pcd_outlet (pcd_variant : string) :
  (omap bc_marker (Bench.bc_pcd pcd_variant) == Some Bench.outlet_marker)
  = String.eqb pcd_variant "BRM2".
Proof.
rewrite /Bench.bc_pcd.
case E1: (String.eqb pcd_variant "BRM1").
  by move/String.eqb_eq: E1 => ->.
by case: (String.eqb pcd_variant "BRM2").
Qed.

End Strategy.

(** C1, as stated, fails.  The demo's "ESW" strategy puts the artificial
    Dirichlet pressure condition on the outflow boundary, not on the inflow
    boundary, and the benchmark's "BRM2" variant integrates the Robin term
    over the inlet, not over the outlet. *)
Lemma C1_counterexample :
  Dolfin.bc_marker (Demo.bc_art "ESW") <> Demo.inflow_marker
  /\ Ufl.surface_markers (Bench.kp (1 : rat)%R "BRM2")
     <> [:: Bench.outlet_marker].
Proof. by split. Qed.

(** C1, amended.  The artificial pressure condition is a homogeneous
    Dirichlet condition on the pressure space.  For "BRM1" (benchmark) and
    "BMR" (demo) it sits on the inflow boundary, marker 1, and the forms
    carry no surface integral.  For "BRM2" (benchmark) and "ESW" (demo) it
    sits on the outflow boundary, marker 2, and the Robin correction is
    integrated over the inflow boundary, [ds(1)].  For every tag the demo
    accepts, the two go together: the Robin integral over the inflow
    boundary is present exactly when the Dirichlet condition is on the
    outflow boundary. *)
Theorem C1_pressure_bc_and_robin_boundaries (K : numFieldType) (nu : K) :
  [/\ omap Dolfin.bc_marker (Bench.bc_pcd "BRM1") = Some Bench.inlet_marker,
      Ufl.surface_markers (Bench.kp nu "BRM1") = [::],
      omap Dolfin.bc_marker (Bench.bc_pcd "BRM2") = Some Bench.outlet_marker
    & Ufl.surface_markers (Bench.kp nu "BRM2") = [:: Bench.inlet_marker]]
  /\ [/\ Dolfin.bc_marker (Demo.bc_art "BMR") = Demo.inflow_marker,
         Ufl.surface_markers (Demo.fp nu "BMR") = [::],
         Dolfin.bc_marker (Demo.bc_art "ESW") = Demo.outflow_marker
       & Ufl.surface_markers (Demo.fp nu "ESW") = [:: Demo.inflow_marker]]
  /\ (forall pcd_strategy : string,
        Dolfin.bc_space (Demo.bc_art pcd_strategy) = Dolfin.W_sub1
        /\ (Dolfin.bc_marker (Demo.bc_art pcd_strategy) = Demo.outflow_marker
            /\ Ufl.surface_markers (Demo.fp nu pcd_strategy)
               = [:: Demo.inflow_marker]
            \/ Dolfin.bc_marker (Demo.bc_art pcd_strategy) = Demo.inflow_marker
               /\ Ufl.surface_markers (Demo.fp nu pcd_strategy) = [::])).
Proof.
split; first by split.
split; first by split.
move=> s; split=> //.
rewrite demo_fp_surface_markers /Demo.bc_art /Demo.PCD_BND_MARKER /=.
by case: (String.eqb s "ESW"); [left | right].
Qed.

(** *** The convection-diffusion operator [fp] *)

Section ConvectionDiffusion.

Variable K : numFieldType.
Variable nu : K.
Variable n : nat.
Variable elem : Ufl.integrand -> Ufl.measure -> 'M[K]_n.

Import Ufl Dolfin.
Local Open Scope string_scope.
Local Open Scope ring_scope.

(** The assembled pressure operators. *)
Let Ap : 'M[K]_n := elem (SGradGrad Trial_p Test_q) dx.
Let Mp : 'M[K]_n := elem (Mass Trial_p Test_q) dx.
Let Kp : 'M[K]_n := elem (SConvect Trial_p Iterate_u Test_q) dx.
Let Rp : 'M[K]_n := elem (Flux Iterate_u Normal_n Trial_p Test_q) (ds 1).

Lemma assemble_demo_ap : assemble elem (Demo.ap K) = Ap.
Proof. by rewrite /Demo.ap assemble_integral. Qed.

Lemma assemble_demo_mp : assemble elem (Demo.mp K) = Mp.
Proof. by rewrite /Demo.mp assemble_integral. Qed.

Lemma assemble_demo_kp : assemble elem (Demo.kp K) = Kp.
Proof. by rewrite /Demo.kp assemble_integral. Qed.

Lemma assemble_demo_fp0 : assemble elem (Demo.fp0 nu) = nu *: Ap + Kp.
Proof.
by rewrite /Demo.fp0 assemble_fadd assemble_fscale assemble_demo_ap
           assemble_demo_kp.
Qed.

Lemma assemble_demo_fp (pcd_strategy : string) :
  assemble elem (Demo.fp nu pcd_strategy)
  = nu *: Ap + Kp - (if String.eqb pcd_strategy "ESW" then Rp else 0).
Proof.
rewrite /Demo.fp; case: (String.eqb _ _).
  by rewrite assemble_fsub assemble_demo_fp0 assemble_integral.
by rewrite assemble_demo_fp0 subr0.
Qed.

Lemma assemble_bench_mp : assemble elem (Bench.mp nu) = nu^-1 *: Mp.
Proof. by rewrite /Bench.mp assemble_fscale assemble_integral. Qed.

Lemma assemble_bench_ap : assemble elem (Bench.ap K) = Ap.
Proof. by rewrite /Bench.ap assemble_integral. Qed.

Lemma assemble_bench_kp (pcd_variant : string) :
  assemble elem (Bench.kp nu pcd_variant)
  = nu^-1 *: (Kp - (if String.eqb pcd_variant "BRM2" then Rp else 0)).
Proof.
rewrite /Bench.kp; case: (String.eqb _ _).
  by rewrite assemble_fsub !assemble_fscale !assemble_integral scalerBr.
by rewrite assemble_fscale assemble_integral subr0.
Qed.

End ConvectionDiffusion.


(** *** The Jacobian *)

Section Jacobian.

Variable K : numFieldType.
Variable nu : K.

Import Ufl.
Local Open Scope string_scope.
Local Open Scope ring_scope.
Local Open Scope form_scope.

(** The derivative of the residual, term by term: the convection term is
    differentiated in both velocity slots, the source term drops out. *)
Lemma demo_derivative_F :
  derivative (Demo.F nu)
  = [:: Term (nu * 1) (GradGrad Trial_u Test_v) dx;
        Term 1 (Convect Trial_u Iterate_u Test_v) dx;
        Term 1 (Convect Iterate_u Trial_u Test_v) dx;
        Term (-1 * 1) (MulDiv Trial_p Test_v) dx;
        Term (-1 * 1) (MulDiv Test_q Trial_u) dx].
Proof. by []. Qed.

Lemma demo_picard_terms :
  Demo.J_picard nu
  = [:: Term (nu * 1) (GradGrad Trial_u Test_v) dx;
        Term 1 (Convect Trial_u Iterate_u Test_v) dx;
        Term (-1 * 1) (MulDiv Trial_p Test_v) dx;
        Term (-1 * 1) (MulDiv Test_q Trial_u) dx].
Proof. by []. Qed.

Variable n : nat.
Variable elem : integrand -> measure -> 'M[K]_n.

Lemma assemble_cons (t : term K) (a : form K) :
  assemble elem (t :: a)
  = coef t *: elem (body t) (meas t) + assemble elem a.
Proof. by rewrite /assemble big_cons. Qed.

Lemma demo_newton_minus_picard :
  assemble elem (derivative (Demo.F nu))
  = assemble elem (Demo.J_picard nu)
    + elem (Convect Iterate_u Trial_u Test_v) dx.
Proof.
rewrite demo_derivative_F demo_picard_terms !assemble_cons /= assemble_nil.
rewrite !scale1r !addr0 -!addrA; congr (_ + (_ + _)).
by rewrite addrC -addrA.
Qed.

End Jacobian.

(** C4.  The Jacobian is a function of the solver tag alone.  Under
    "Newton" it is [derivative(F, w)], the derivative of the residual with
    respect to the whole iterate; under "Picard" it is the frozen-convection
    form, in which every convection term is convected by the iterate [u_];
    the Newton Jacobian has a convection term convected by the trial
    function [u], and that term is all the two differ by.  The benchmark's
    [create_forms] chooses in the same way, for both values of [alpha] it
    is run with and for both linear-solver modes. *)
Theorem C4_jacobian_is_chosen_by_solver_tag
    (K : numFieldType) (nu : K) (n : nat)
    (elem : Ufl.integrand -> Ufl.measure -> 'M[K]_n) :
  [/\ Demo.J nu "Newton" = Ufl.derivative (Demo.F nu),
      all Ufl.is_iterate_u (Ufl.convecting (Demo.J nu "Picard")),
      has Ufl.is_trial_u (Ufl.convecting (Demo.J nu "Newton"))
    & Ufl.assemble elem (Demo.J nu "Newton")
      = (Ufl.assemble elem (Demo.J nu "Picard")
         + elem (Ufl.Convect Ufl.Iterate_u Ufl.Trial_u Ufl.Test_v) Ufl.dx)%R]
  /\ (forall nls : string,
        Demo.J nu nls
        = (if String.eqb nls "Newton" then Demo.J nu "Newton"
           else Demo.J nu "Picard"))
  /\ (forall alpha : K,
        bench_jacobians nu alpha "direct"
        /\ bench_jacobians nu alpha "iterative").
Proof.
split; first by split=> //; exact: demo_newton_minus_picard.
split; first by move=> nls; rewrite /Demo.J; case: (String.eqb _ _).
move=> alpha; split; split.
- by do 3!eexists.
- do 4!eexists; split; first by [].
  by rewrite /Bench.one_minus_alpha_term; case: (alpha == 1)%R.
- by do 3!eexists.
- do 4!eexists; split; first by [].
  by rewrite /Bench.one_minus_alpha_term; case: (alpha == 1)%R.
Qed.

(** *** The two scalings of the PCD operators *)

Section Scaling.

Variable K : numFieldType.
Variable n : nat.

Local Open Scope ring_scope.

Lemma unitmx_scale (a : K) (A : 'M[K]_n) :
  a != 0 -> (a *: A \in unitmx) = (A \in unitmx).
Proof.
by move=> a0; rewrite unitmxZ // unitfE.
Qed.

(** Scaling the mass matrix by [1/nu] and the convection-diffusion matrix
    by [nu] cancel in the preconditioner, also when a factorisation
    fails. *)
Lemma pcd_apply_scaled (nu : K) (Mp Fp Ap : 'M[K]_n) (r : 'cV[K]_n) :
  nu != 0 ->
  Core.pcd_apply (nu^-1 *: Mp) Fp Ap r = Core.pcd_apply Mp (nu *: Fp) Ap r.
Proof.
move=> nu0; rewrite /Core.pcd_apply unitmx_scale ?invr_eq0 //.
case: (Ap \in unitmx) => //=.
case UM: (Mp \in unitmx) => //.
rewrite invmxZ ?unitmx_scale ?invr_eq0 // invrK.
by rewrite -scalemxAl -scalemxAl scalemxAr.
Qed.

(** What the demo hands over under "BMR", [kp] and [nu], yields the [fp]
    of line 167. *)
Lemma demo_bmr_build_Fp (nu : K)
    (elem : Ufl.integrand -> Ufl.measure -> 'M[K]_n) :
  Core.build_Fp nu (Ufl.assemble elem (Demo.ap K))
    (Ufl.assemble elem (Demo.kp K))
  = Ufl.assemble elem (Demo.fp nu "BMR").
Proof. by rewrite assemble_demo_fp assemble_demo_ap assemble_demo_kp subr0. Qed.

End Scaling.

(** C8.  For every viscosity [nu > 0] and every pressure vector [x], the
    preconditioner built from the benchmark's operators, [Mp' = (1/nu)*Mp],
    [Kp' = (1/nu)*Kp] and [Fp' = Ap + Kp'], acts on [x] as the one built
    from the demo's, [Mp], [Kp] and [Fp = nu*Ap + Kp]: either both fail on
    a singular [Ap] or [Mp], or both return [Mp^-1 Fp Ap^-1 x].  This holds
    for the pair without surface terms ("BRM1" and "BMR") and for the pair
    with the Robin correction ("BRM2" and "ESW"). *)
Theorem C8_viscosity_scaling_cancels
    (K : numFieldType) (n : nat)
    (elem : Ufl.integrand -> Ufl.measure -> 'M[K]_n)
    (nu : K) (x : 'cV[K]_n) :
  (0 < nu)%R ->
  let Ap := Ufl.assemble elem (Demo.ap K) in
  let Mp := Ufl.assemble elem (Demo.mp K) in
  let Ap' := Ufl.assemble elem (Bench.ap K) in
  let Mp' := Ufl.assemble elem (Bench.mp nu) in
  let Kp' := fun v => Ufl.assemble elem (Bench.kp nu v) in
  let Fp := fun s => Ufl.assemble elem (Demo.fp nu s) in
  let Fp' := fun v => Core.build_Fp 1%R Ap' (Kp' v) in
  Core.pcd_apply Mp' (Fp' "BRM1"%string) Ap' x
  = Core.pcd_apply Mp (Fp "BMR"%string) Ap x
  /\ Core.pcd_apply Mp' (Fp' "BRM2"%string) Ap' x
     = Core.pcd_apply Mp (Fp "ESW"%string) Ap x.
Proof.
move=> nu_gt0 /=.
have nu0 : nu != 0%R by exact: lt0r_neq0.
rewrite assemble_bench_mp !assemble_bench_ap ?assemble_demo_ap assemble_demo_mp.
rewrite !assemble_bench_kp !assemble_demo_fp /= !pcd_apply_scaled //.
rewrite /Core.build_Fp !scale1r !scalerDr !scalerA !divff // !scale1r.
by rewrite !addrA.
Qed.

(** The statement of C8 at a concrete system: one pressure unknown, every
    integral assembled to the identity, viscosity 2. *)
Lemma C8_witness :
  let elem : Ufl.integrand -> Ufl.measure -> 'M[rat]_1 :=
    fun _ _ => (1%:M)%R in
  let nu : rat := (2%:R)%R in
  let x : 'cV[rat]_1 := (1%:M)%R in
  let Ap := Ufl.assemble elem (Demo.ap rat) in
  let Mp := Ufl.assemble elem (Demo.mp rat) in
  let Ap' := Ufl.assemble elem (Bench.ap rat) in
  let Mp' := Ufl.assemble elem (Bench.mp nu) in
  let Kp' := fun v => Ufl.assemble elem (Bench.kp nu v) in
  let Fp := fun s => Ufl.assemble elem (Demo.fp nu s) in
  let Fp' := fun v => Core.build_Fp 1%R Ap' (Kp' v) in
  (0 < nu)%R
  /\ Core.pcd_apply Mp' (Fp' "BRM1"%string) Ap' x
     = Core.pcd_apply Mp (Fp "BMR"%string) Ap x
  /\ Core.pcd_apply Mp' (Fp' "BRM2"%string) Ap' x
     = Core.pcd_apply Mp (Fp "ESW"%string) Ap x.
Proof.
move=> elem nu x Ap Mp Ap' Mp' Kp' Fp Fp'.
have nu_gt0 : (0 < nu)%R by [].
split; first exact: nu_gt0.
exact: (C8_viscosity_scaling_cancels elem x nu_gt0).
Defined.

(** *** The configuration of the field-split Krylov solver *)

Section KrylovConfiguration.

Local Open Scope string_scope.

Variable fieldsplit_defaults : Py.parameters.
Variable subopts_00 subopts_11 : Py.dict.

Lemma demo_inner_solver_parameters :
  let prm := Demo.inner_solver_parameters fieldsplit_defaults in
  [/\ prm [:: "relative_tolerance"] = Some (Py.Float (1 # 1000000)),
      prm [:: "maximum_iterations"] = Some (Py.Int 100),
      prm [:: "gmres"; "restart"] = Some (Py.Int 100),
      prm [:: "error_on_nonconvergence"] = Some (Py.Bool false)
    & [/\ prm [:: "preconditioner"; "side"] = Some (Py.Str "right"),
          prm [:: "preconditioner"; "fieldsplit"; "type"]
          = Some (Py.Str "schur")
        & prm [:: "preconditioner"; "fieldsplit"; "schur"; "fact_type"]
          = Some (Py.Str "upper")]].
Proof. by []. Qed.

Variable random_string : string.
Variable krylov_defaults newton_defaults : Py.parameters.
Variable PETScOptions : Py.dict.

Lemma bench_create_solver (pcd_variant ls : string) (mumps_debug : bool) :
  ls = "direct" \/ ls = "iterative" ->
  exists solver db,
    [/\ Bench.create_solver random_string krylov_defaults newton_defaults
          PETScOptions pcd_variant ls mumps_debug = Some (solver, db),
        Fenapack.ks_parameters (Fenapack.nw_linear_solver solver)
          [:: "relative_tolerance"] = Some (Py.Float (1 # 1000000)),
        db (Bench.opt random_string "ksp_gmres_restart") = Some (Py.Int 150)
      & forall k, Py.path_eqb k [:: "relative_tolerance"] = false ->
          Fenapack.ks_parameters (Fenapack.nw_linear_solver solver) k
          = krylov_defaults k].
Proof.
rewrite /Bench.create_solver /Bench.create_options.
case=> ->; rewrite /=; last first.
  do 2!eexists; split; [by [] | by [] | | by move=> k /=; rewrite /Py.assign => ->].
  by rewrite /Py.set /Bench.opt !append_eqb.
case: mumps_debug.
  do 2!eexists; split; [by [] | by [] | | by move=> k /=; rewrite /Py.assign => ->].
  by rewrite /Py.set /Bench.opt !append_eqb.
do 2!eexists; split; [by [] | by [] | | by move=> k /=; rewrite /Py.assign => ->].
by rewrite /Py.set /Bench.opt !append_eqb.
Qed.

End KrylovConfiguration.

(** C6.  The demo's inner solver is a field-split solver with method
    "gmres", preconditioned on the right by a Schur field split with the
    upper factorisation, relative tolerance 1e-6, at most 100 iterations
    and restart length 100, whatever the constructor had put into its
    parameter set.  The benchmark's Krylov solver gets relative tolerance
    1e-6 and restart length 150 in both linear-solver modes and is
    otherwise left as constructed; on a parameter set without entries of
    its own it runs with the documented defaults, tolerance 1e-6 and at
    most 100 iterations.  Both restart lengths lie between 100 and 150. *)
Theorem C6_field_split_krylov_configuration
    (fieldsplit_defaults : Py.parameters) (subopts_00 subopts_11 : Py.dict)
    (random_string : string) (krylov_defaults newton_defaults : Py.parameters)
    (PETScOptions : Py.dict) (pcd_strategy pcd_variant : string)
    (mumps_debug : bool) :
  let demo :=
    Demo.inner_solver fieldsplit_defaults subopts_00 subopts_11 pcd_strategy in
  let prm := Fenapack.fs_parameters demo in
  [/\ Fenapack.fs_method demo = "gmres"%string,
      prm [:: "preconditioner"; "side"]%string = Some (Py.Str "right"),
      prm [:: "preconditioner"; "fieldsplit"; "type"]%string
      = Some (Py.Str "schur")
    & prm [:: "preconditioner"; "fieldsplit"; "schur"; "fact_type"]%string
      = Some (Py.Str "upper")]
  /\ [/\ prm [:: "relative_tolerance"]%string = Some (Py.Float (1 # 1000000)),
         prm [:: "maximum_iterations"]%string = Some (Py.Int 100)
       & exists r, prm [:: "gmres"; "restart"]%string = Some (Py.Int r)
                   /\ (100 <= r <= 150)%Z]
  /\ Core.krylov_parameters_of prm
     = Core.mkKrylovParameters (1 # 1000000) 100 false
  /\ bench_krylov_configured random_string krylov_defaults newton_defaults
       PETScOptions pcd_variant "direct" mumps_debug
  /\ bench_krylov_configured random_string krylov_defaults newton_defaults
       PETScOptions pcd_variant "iterative" mumps_debug.
Proof.
have bench ls : ls = "direct"%string \/ ls = "iterative"%string ->
    bench_krylov_configured random_string krylov_defaults newton_defaults
      PETScOptions pcd_variant ls mumps_debug.
  move=> Hls.
  have [solver [db [E Hrtol Hrestart Hrest]]] :=
    bench_create_solver random_string krylov_defaults newton_defaults
      PETScOptions pcd_variant mumps_debug Hls.
  exists solver, db; split=> //.
    by exists 150%Z; split=> //; lia.
  move=> Hnone.
  by rewrite /Core.krylov_parameters_of Hrtol !Hrest // !Hnone.
split; first by [].
split; first by split=> //; exists 100%Z; split=> //; lia.
split; first by [].
by split; apply: bench; [left | right].
Qed.

(** *** The run of the demo script *)

Section ScriptRun.

Variable py_int : string -> option Z.
Variable py_float : string -> option Q.

Local Open Scope string_scope.

(** Where a run ends, by the outcome of the argument parser. *)
Lemma run_outcome (argv : seq string) :
  Demo.run py_int py_float argv
  = match Demo.parse_args py_int py_float argv with
    | Demo.Parsed a =>
        (Demo.mkState a (Z.to_nat (Demo.level a - 1))
           (~~ Qeq_bool (Demo.stretch a) 1) false false
           [:: 80; 79; 78; 65; 61; 59; 56; 23],
         Demo.Exited 80 0)
    | Demo.SystemExit c =>
        (Demo.mkState Demo.default_args 0 false false false [:: 56; 23],
         Demo.Exited 56 c)
    end.
Proof.
rewrite /Demo.run /Demo.script /= /Demo.exec /=.
by case: (Demo.parse_args py_int py_float argv).
Qed.

End ScriptRun.

(** Two runs: without arguments, and with a refinement level, a stretch
    and the help flag last. *)
Example demo_run_defaults :
  (Demo.run (fun _ => None) (fun _ => None) [::]).2 = Demo.Exited 80 0.
Proof. by []. Qed.

Example demo_run_help :
  (Demo.run (fun _ => Some 2%Z) (fun _ => Some (3 # 2)%Q)
     [:: "-l"; "2"; "-s"; "1.5"; "-h"]%string).2 = Demo.Exited 56 0.
Proof. by []. Qed.

(** C2, as stated, fails: on the command line [--nls Foo] the parser
    rejects the value and the script ends on line 56 with status 2, before
    the mesh is loaded or plotted. *)
Lemma C2_counterexample :
  Demo.run (fun _ => None) (fun _ => None) [:: "--nls"; "Foo"]%string
  = (Demo.mkState Demo.default_args 0 false false false [:: 56; 23],
     Demo.Exited 56 2).
Proof. by []. Qed.

(** C2, amended.  Every run ends in a [SystemExit].  When the parser
    accepts the command line, the run ends at the [exit()] of line 80,
    right after [plot(mesh)] and [interactive()]; when it does not, the
    run ends inside [parse_args] on line 56.  In both cases no statement
    after line 80 is executed: [solver.solve] is not called and no result
    is saved. *)
Theorem C2_script_never_passes_exit
    (py_int : string -> option Z) (py_float : string -> option Q)
    (argv : seq string) :
  let: (st, r) := Demo.run py_int py_float argv in
  [/\ match Demo.parse_args py_int py_float argv with
      | Demo.Parsed a =>
          r = Demo.Exited 80 0 /\ Demo.args st = a
          /\ take 3 (Demo.executed st) = [:: 80; 79; 78]
      | Demo.SystemExit c =>
          r = Demo.Exited 56 c /\ Demo.executed st = [:: 56; 23]
      end,
      all (fun ln => ln <= 80) (Demo.executed st),
      all (fun s => s.1 \notin Demo.executed st) (after_exit),
      Demo.solved st = false
    & Demo.saved st = false].
Proof.
rewrite run_outcome.
by case: (Demo.parse_args py_int py_float argv).
Qed.

(** *** Grid stretching *)

Section StretchingLemmas.

Local Open Scope R_scope.

Variable alpha : R.
Hypothesis alpha_pos : 0 < alpha.

Lemma Rpower_one : Rpower 1 alpha = 1.
Proof. by rewrite /Rpower ln_1 Rmult_0_r exp_0. Qed.

Lemma power_one : Demo.power 1 alpha = Some 1.
Proof.
rewrite /Demo.power; case: (Req_EM_T 1 0) => [?|?]; first by lra.
by rewrite Rpower_one.
Qed.

Lemma power_zero : Demo.power 0 alpha = Some 0.
Proof.
rewrite /Demo.power; case: (Req_EM_T 0 0) => [?|?]; last by lra.
case: (Req_EM_T alpha 0) => [?|?]; first by lra.
by case: (Rlt_dec 0 alpha) => [?|?] //; lra.
Qed.

(** On a base in [[0, 1]] the power is defined, stays in [[0, 1]], is
    positive on a positive base and zero at zero. *)
Lemma power_unit_interval (t : R) :
  0 <= t <= 1 ->
  exists r, [/\ Demo.power t alpha = Some r, 0 <= r <= 1,
                0 < t -> 0 < r & t = 0 -> r = 0].
Proof.
move=> [t0 t1]; rewrite /Demo.power.
case: (Req_EM_T t 0) => [tz|tn0] /=.
  case: (Req_EM_T alpha 0) => [?|?] /=; first by lra.
  case: (Rlt_dec 0 alpha) => [?|?] /=; last by lra.
  by exists 0; split=> //; lra.
have tpos : 0 < t by lra.
exists (Rpower t alpha); split=> //.
  split; first by apply: Rlt_le; apply: exp_pos.
  rewrite -Rpower_one; apply: Rle_Rpower_l; last by lra.
  exact: Rlt_le.
by move=> _; apply: exp_pos.
Qed.

Lemma transform_y_fixed :
  [/\ Demo.transform_y (-1) alpha = Some (-1),
      Demo.transform_y 0 alpha = Some 0
    & Demo.transform_y 1 alpha = Some 1].
Proof.
rewrite /Demo.transform_y /Demo.sign Rabs_Ropp Rabs_R1 Rabs_R0.
rewrite power_one power_zero /=.
case: (Rlt_dec (-1) 0) => [?|?]; last by lra.
case: (Rlt_dec 0 0) => [?|?]; first by lra.
case: (Rlt_dec 1 0) => [?|?]; first by lra.
case: (Rlt_dec 0 1) => [?|?]; last by lra.
by split; rewrite /=; congr Some; lra.
Qed.

Lemma transform_x_fixed :
  [/\ Demo.transform_x (-1) alpha = Some (-1),
      Demo.transform_x 0 alpha = Some 0
    & Demo.transform_x 5 alpha = Some 5].
Proof.
rewrite /Demo.transform_x Rabs_Ropp Rabs_R1 Rabs_R0.
case: (Rle_dec (-1) 0) => [?|?]; last by lra.
case: (Rle_dec 0 0) => [?|?]; last by lra.
case: (Rle_dec 5 0) => [?|?]; first by lra.
have ->: 0.2 * 5 = 1 by lra.
by rewrite power_one power_zero; split; rewrite /=; congr Some; lra.
Qed.

Lemma Rabs_unit (t : R) :
  -1 <= t <= 1 ->
  [/\ 0 <= Rabs t <= 1, t <> 0 -> 0 < Rabs t & t = 0 -> Rabs t = 0].
Proof.
move=> [tlo thi]; split.
- by split; [exact: Rabs_pos | apply: Rabs_le; lra].
- exact: Rabs_pos_lt.
- by move=> ->; exact: Rabs_R0.
Qed.

Lemma transform_y_box (y : R) :
  -1 <= y <= 1 ->
  exists y', [/\ Demo.transform_y y alpha = Some y', -1 <= y' <= 1,
                 y < 0 -> y' < 0, y = 0 -> y' = 0 & 0 < y -> 0 < y'].
Proof.
move=> Hy; have [Habs Hpos Hzero] := Rabs_unit Hy.
have [r [Hr [r0 r1] rpos rzero]] := power_unit_interval Habs.
rewrite /Demo.transform_y Hr /Demo.sign.
case: (Rlt_dec y 0) => [yneg|ynneg] /=.
  have {}rpos : 0 < r by apply: rpos; apply: Hpos; lra.
  by exists (-1 * r); split=> //; lra.
case: (Rlt_dec 0 y) => [ypos|ynpos] /=.
  have {}rpos : 0 < r by apply: rpos; apply: Hpos; lra.
  by exists (1 * r); split=> //; lra.
by exists (0 * r); split=> //; lra.
Qed.

Lemma transform_x_box (x : R) :
  -1 <= x <= 5 ->
  exists x', [/\ Demo.transform_x x alpha = Some x', -1 <= x' <= 5,
                 x < 0 -> x' < 0, x = 0 -> x' = 0 & 0 < x -> 0 < x'].
Proof.
move=> [xlo xhi]; rewrite /Demo.transform_x.
case: (Rle_dec x 0) => [xle|xgt] /=.
  have Hx : -1 <= x <= 1 by lra.
  have [Habs Hpos Hzero] := Rabs_unit Hx.
  have [r [-> [r0 r1] rpos rzero]] := power_unit_interval Habs.
  by exists (-1 * r); split=> //=; lra.
have Hb : 0 <= 0.2 * x <= 1 by lra.
have [r [-> [r0 r1] rpos rzero]] := power_unit_interval Hb.
have {}rpos : 0 < r by apply: rpos; lra.
by exists (5 * r); split=> //=; lra.
Qed.

(** Every vertex of the box [[-1, 5] x [-1, 1]] stays in the box. *)
Lemma stretch_vertex_box (v : R * R * R) :
  Demo.in_box v ->
  exists v', Demo.stretch_vertex alpha v = Some v' /\ Demo.in_box v'.
Proof.
case: v => [[x y] z] [Hx Hy].
have [y' [Ey By _ _ _]] := transform_y_box Hy.
have [x' [Ex Bx _ _ _]] := transform_x_box Hx.
by exists (x', y', z); rewrite /Demo.stretch_vertex Ey Ex.
Qed.

Lemma stretch_mesh_box (coordinates : seq (R * R * R)) :
  List.Forall Demo.in_box coordinates ->
  exists coordinates',
    [/\ Demo.stretch_mesh alpha coordinates = Some coordinates',
        size coordinates' = size coordinates
      & List.Forall Demo.in_box coordinates'].
Proof.
elim: coordinates => [|v m IH] Hall; first by exists [::]; split.
have [Hv Hm] : Demo.in_box v /\ List.Forall Demo.in_box m.
  by inversion Hall.
have [v' [Ev Bv]] := stretch_vertex_box Hv.
have [m' [Em Sm Bm]] := IH Hm.
exists (v' :: m'); split; rewrite /= ?Ev ?Em ?Sm //.
exact: List.Forall_cons.
Qed.

End StretchingLemmas.

(** In binary64 arithmetic the product [0.2*xi] at [xi = 5.0] rounds to
    exactly [1.0], as it is over the reals. *)
Remark outlet_scaling_is_exact_in_binary64 :
  PrimFloat.eqb (PrimFloat.mul 0.2%float 5%float) 1%float = true.
Proof. by vm_compute. Qed.



(** *** The Krylov iteration *)

Lemma QltbP (a b : Q) : reflect (a < b)%Q (Py.Qltb a b).
Proof.
rewrite /Py.Qltb; apply: (iffP idP) => [/negP H|H].
  by apply: Qnot_le_lt => /Qle_bool_iff.
by apply/negP => /Qle_bool_iff; exact: Qlt_not_le.
Qed.

Section KrylovLemmas.

Variable X : Type.
Variable relres : X -> Q.
Variable gmres_step : X -> X.
Variable rtol : Q.

Import Core.

(** The result of the iteration: the iterate it stops at is reached by as
    many steps as it counts, the flag is the test at that iterate, and a
    negative flag means the whole budget was spent. *)
Lemma krylov_iterate_spec (budget k : nat) (x : X) :
  let res := krylov_iterate relres gmres_step rtol budget k x in
  [/\ kr_solution res = iter (kr_iterations res - k) gmres_step x,
      kr_residual res = relres (kr_solution res),
      kr_converged res = Py.Qltb (relres (kr_solution res)) rtol,
      k <= kr_iterations res <= k + budget
    & ~~ kr_converged res -> kr_iterations res = k + budget].
Proof.
elim: budget k x => [|budget IH] k x /=.
  case E: (Py.Qltb (relres x) rtol) => /=.
    by rewrite subnn E addn0 leqnn.
  by rewrite subnn E addn0 leqnn.
case E: (Py.Qltb (relres x) rtol) => /=.
  by rewrite subnn E leqnn leq_addr.
have [Hs Hr Hc /andP [Hlo Hhi] Hn] := IH k.+1 (gmres_step x).
split=> //.
- by rewrite Hs -iterSr -subSn // subSS.
- by rewrite (ltnW Hlo) /= addnS -addSn.
- by move=> /Hn ->; rewrite addnS addSn.
Qed.

Lemma krylov_solve_cases (prm : KrylovParameters) (x0 : X) :
  let res := krylov_iterate relres gmres_step (k_relative_tolerance prm)
               (k_maximum_iterations prm) 0 x0 in
  krylov_solve relres gmres_step prm x0
  = if ~~ kr_converged res && k_error_on_nonconvergence prm
    then Raised LinearNonConvergence else Returned res.
Proof. by []. Qed.

End KrylovLemmas.

(** *** The nonlinear state machine *)

Section NonlinearLemmas.

Variables W S X : Type.
Variable residual_norm : W -> Q.
Variable build : W -> S.
Variable relres : S -> X -> Q.
Variable gmres_step : S -> X -> X.
Variable x0 : X.
Variable update : W -> X -> W.
Variable kprm : Core.KrylovParameters.
Variable prm : Core.NonlinearParameters.

Import Core.

Let step := transition residual_norm build relres gmres_step x0 update kprm prm.
Let inv := invariant build relres gmres_step x0 update kprm prm.
Let test := convergence_test (W:=W) prm.
Let maxit := n_maximum_iterations prm.

Lemma init_invariant (w0 : W) : inv w0 (init w0).
Proof. by split=> //=; rewrite big_ord0. Qed.

Lemma transition_invariant (w0 : W) (st : SolverState W) :
  inv w0 st -> inv w0 (step st).
Proof.
case: st => ph k r0 r w kit; rewrite /inv /invariant /convergence_test /=.
move=> [Hw Hk Hph].
rewrite /step /transition /convergence_test /=; case: ph Hph => //= Hph.
- by split=> //=; rewrite Hph.
- case Etest: (Py.Qltb _ _); first by split.
  case: (leqP (n_maximum_iterations prm) k) => [Hle|Hlt].
    by split=> //=; rewrite Etest; split=> //; apply/eqP; rewrite eqn_leq Hph.
  rewrite /linear_solve krylov_solve_cases.
  case Eerr: (_ && _).
    by split=> //=; rewrite Etest; split=> //; case/andP: Eerr.
  split=> //=.
  + by rewrite Hw.
  + by rewrite big_ord_recr /= -Hk /inner_iterations /linear_result Hw.
Qed.

Lemma iter_invariant (w0 : W) (n : nat) : inv w0 (iter n step (init w0)).
Proof.
elim: n => [|n IH]; first exact: init_invariant.
by rewrite iterS; exact: transition_invariant.
Qed.

Lemma transition_terminal (st : SolverState W) :
  terminal (st_phase st) -> step st = st.
Proof. by rewrite /step /transition; case: st => [[]]. Qed.

Lemma iter_terminal (n : nat) (st : SolverState W) :
  terminal (st_phase st) -> iter n step st = st.
Proof.
by move=> Ht; elim: n => [|n IH] //; rewrite iterS IH transition_terminal.
Qed.

(** From an iterating state at most [maxit - k] corrections and one more
    test lead to a terminal state. *)
Lemma iterating_terminates (d : nat) (st : SolverState W) :
  st_phase st = IteratingNewtonOrPicard ->
  maxit - st_iterations st <= d ->
  terminal (st_phase (iter d.+1 step st)).
Proof.
elim: d st => [|d IH] st Hph Hd; rewrite iterSr.
  rewrite /= /step /transition Hph.
  case: (convergence_test _ _) => //.
  by move: Hd; rewrite leqn0 subn_eq0 => ->.
have [Ht|Hnt] := boolP (terminal (st_phase (step st))).
  by rewrite iter_terminal.
apply: IH.
  move: Hnt; rewrite /step /transition Hph.
  case: (convergence_test _ _) => //.
  case: (leqP (n_maximum_iterations prm) _) => // _.
  by case: (linear_solve _ _ _ _ _ _).
move: Hnt; rewrite /step /transition Hph.
case: (convergence_test _ _) => //.
case: (leqP (n_maximum_iterations prm) _) => // Hlt.
case: (linear_solve _ _ _ _ _ _) => //= res _.
by rewrite subnS -subn1 leq_subLR add1n.
Qed.

Lemma run_terminal (w0 : W) :
  terminal (st_phase (run residual_norm build relres gmres_step x0 update
                        kprm prm w0)).
Proof.
rewrite /run iterSr; apply: iterating_terminates => //=.
by rewrite subn0.
Qed.

Lemma run_invariant (w0 : W) :
  inv w0 (run residual_norm build relres gmres_step x0 update kprm prm w0).
Proof. exact: iter_invariant. Qed.

Let tracked :=
  residuals_tracked residual_norm build relres gmres_step x0 update kprm prm.

(** A transition keeps the stored norms in step with the residual: the
    residual is evaluated at the initial guess on leaving [Initializing]
    and again at every new iterate. *)
Lemma transition_tracked (w0 : W) (st : SolverState W) :
  inv w0 st -> tracked w0 st -> tracked w0 (step st).
Proof.
case: st => ph k r0 r w kit.
rewrite /inv /invariant /tracked /residuals_tracked /=.
move=> [Hw Hk Hph].
rewrite /step /transition /convergence_test /=; case: ph Hph => //= Hph.
- by move=> _; move: Hw; rewrite Hph /= => ->; split.
- move=> [Hr0 Hr Hearlier].
  case Etest: (Py.Qltb _ _); first by split.
  case: (leqP (n_maximum_iterations prm) k) => [Hle|Hlt]; first by split.
  rewrite /linear_solve krylov_solve_cases.
  case Eerr: (_ && _); first by split.
  split=> //= i; rewrite ltnS leq_eqVlt => /orP [/eqP ->|]; last exact: Hearlier.
  by rewrite /relative_residual -Hw -Hr -Hr0 Etest.
Qed.

Lemma iter_tracked (w0 : W) (n : nat) : tracked w0 (iter n step (init w0)).
Proof.
elim: n => [|n IH] //; rewrite iterS.
by apply: transition_tracked => //; exact: iter_invariant.
Qed.

Lemma run_tracked (w0 : W) :
  tracked w0 (run residual_norm build relres gmres_step x0 update kprm prm w0).
Proof. exact: iter_tracked. Qed.

End NonlinearLemmas.



(** C7.  A linear solve that has not converged within its budget stops at
    the iterate reached by [maximum_iterations] steps; a nonlinear solve
    that ends in MaxIterationsReached stops at the iterate reached by
    [maximum_iterations] corrections.  With the error-on-nonconvergence
    flag of the solver false, the solve returns that iterate with
    converged = false and its iteration counts; with the flag true it
    raises instead.  The flags are false by default, and the demo sets both
    to false. *)
Theorem C7_nonconvergence_is_returned_unless_escalated
    (W S X : Type) (residual_norm : W -> Q) (build : W -> S)
    (relres : S -> X -> Q) (gmres_step : S -> X -> X) (x0 : X)
    (update : W -> X -> W) (kprm : Core.KrylovParameters)
    (prm : Core.NonlinearParameters)
    (fieldsplit_defaults nonlinear_defaults : Py.parameters)
    (s : S) (w0 : W) :
  (Core.kr_converged
     (Core.krylov_iterate (relres s) (gmres_step s)
        (Core.k_relative_tolerance kprm) (Core.k_maximum_iterations kprm)
        0 x0) = false ->
   let x := iter (Core.k_maximum_iterations kprm) (gmres_step s) x0 in
   Core.krylov_solve (relres s) (gmres_step s) kprm x0
   = if Core.k_error_on_nonconvergence kprm
     then Core.Raised Core.LinearNonConvergence
     else Core.Returned
            (Core.mkKrylovResult x false (relres s x)
               (Core.k_maximum_iterations kprm)))
  /\ (Core.st_phase
        (Core.run residual_norm build relres gmres_step x0 update kprm prm w0)
      = Core.MaxIterationsReached ->
      let maxit := Core.n_maximum_iterations prm in
      Core.solve residual_norm build relres gmres_step x0 update kprm prm w0
      = if Core.n_error_on_nonconvergence prm
        then Core.Raised Core.NonlinearNonConvergence
        else Core.Returned
               (Core.mkResult maxit false
                  (\sum_(i < maxit)
                     Core.inner_iterations build relres gmres_step x0 kprm
                       (Core.iterate build relres gmres_step x0 update kprm
                          i w0))
                  (Core.iterate build relres gmres_step x0 update kprm
                     maxit w0)))
  /\ [/\ Core.k_error_on_nonconvergence Core.default_krylov_parameters = false,
         Core.n_error_on_nonconvergence Core.default_nonlinear_parameters
         = false,
         Core.k_error_on_nonconvergence
           (Core.krylov_parameters_of
              (Demo.inner_solver_parameters fieldsplit_defaults)) = false
       & Core.n_error_on_nonconvergence
           (Core.nonlinear_parameters_of
              (Demo.solver_parameters nonlinear_defaults)) = false].
Proof.
split.
  move=> Hnc x; rewrite krylov_solve_cases Hnc /=.
  case: (Core.k_error_on_nonconvergence kprm) => //; congr Core.Returned.
  have [Hs Hr _ _ Hn] :=
    krylov_iterate_spec (relres s) (gmres_step s)
      (Core.k_relative_tolerance kprm) (Core.k_maximum_iterations kprm) 0 x0.
  move: Hs Hr Hn Hnc.
  case: (Core.krylov_iterate _ _ _ _ _ _) => sol c r k /= Hs Hr Hn Hc.
  move: Hn Hs Hr; rewrite Hc add0n => /(_ isT) -> {k}.
  by rewrite subn0 -/x => -> ->.
split; last by [].
move=> Hph maxit; rewrite /Core.solve Hph.
case: (Core.n_error_on_nonconvergence prm) => //; congr Core.Returned.
have [Hw Hk] := run_invariant residual_norm build relres gmres_step x0 update
                  kprm prm w0.
rewrite Hph => -[_ Hit].
by rewrite /Core.result_of Hph Hk Hw Hit.
Qed.

(** With ample budgets the model problem converges after one correction
    of four Krylov steps; with tight ones it stops after two corrections of
    two steps each, not converged; escalated, the same run raises. *)
Example scalar_runs :
  [/\ Scalar.summary
        (Core.solve Scalar.residual_norm Scalar.build Scalar.relres
           Scalar.gmres_step Scalar.x0 Scalar.update Scalar.kprm_ample
           Scalar.prm_ample 1%Q) = Some (1, true, 4),
      Scalar.summary
        (Core.solve Scalar.residual_norm Scalar.build Scalar.relres
           Scalar.gmres_step Scalar.x0 Scalar.update Scalar.kprm_tight
           Scalar.prm_tight 1%Q) = Some (2, false, 4)
    & Scalar.summary
        (Core.solve Scalar.residual_norm Scalar.build Scalar.relres
           Scalar.gmres_step Scalar.x0 Scalar.update Scalar.kprm_tight
           (Core.mkNonlinearParameters (1 # 1000) 2 true) 1%Q) = None].
Proof. by vm_compute. Qed.

(** The statement of C7 on the model problem with tight budgets: neither
    solver converges, and both return. *)
Lemma C7_witness :
  let krylov :=
    Core.krylov_solve (Scalar.relres 1%Q) (Scalar.gmres_step 1%Q)
      Scalar.kprm_tight Scalar.x0 in
  let nonlinear :=
    Core.solve Scalar.residual_norm Scalar.build Scalar.relres
      Scalar.gmres_step Scalar.x0 Scalar.update Scalar.kprm_tight
      Scalar.prm_tight 1%Q in
  [/\ Core.kr_converged
        (Core.krylov_iterate (Scalar.relres 1%Q) (Scalar.gmres_step 1%Q)
           (1 # 1000) 2 0 Scalar.x0) = false,
      Core.st_phase
        (Core.run Scalar.residual_norm Scalar.build Scalar.relres
           Scalar.gmres_step Scalar.x0 Scalar.update Scalar.kprm_tight
           Scalar.prm_tight 1%Q) = Core.MaxIterationsReached,
      krylov
      = Core.Returned
          (Core.mkKrylovResult (iter 2 (Scalar.gmres_step 1%Q) Scalar.x0)
             false
             (Scalar.relres 1%Q (iter 2 (Scalar.gmres_step 1%Q) Scalar.x0))
             2)
    & nonlinear
      = Core.Returned
          (Core.mkResult 2 false
             (\sum_(i < 2)
                Core.inner_iterations Scalar.build Scalar.relres
                  Scalar.gmres_step Scalar.x0 Scalar.kprm_tight
                  (Core.iterate Scalar.build Scalar.relres Scalar.gmres_step
                     Scalar.x0 Scalar.update Scalar.kprm_tight i 1%Q))
             (Core.iterate Scalar.build Scalar.relres Scalar.gmres_step
                Scalar.x0 Scalar.update Scalar.kprm_tight 2 1%Q))].
Proof.
move=> krylov nonlinear.
have Hk : Core.kr_converged
            (Core.krylov_iterate (Scalar.relres 1%Q) (Scalar.gmres_step 1%Q)
               (1 # 1000) 2 0 Scalar.x0) = false by vm_compute.
have Hn : Core.st_phase
            (Core.run Scalar.residual_norm Scalar.build Scalar.relres
               Scalar.gmres_step Scalar.x0 Scalar.update Scalar.kprm_tight
               Scalar.prm_tight 1%Q) = Core.MaxIterationsReached
  by vm_compute.
have [Ck [Cn _]] :=
  C7_nonconvergence_is_returned_unless_escalated Scalar.residual_norm
    Scalar.build Scalar.relres Scalar.gmres_step Scalar.x0 Scalar.update
    Scalar.kprm_tight Scalar.prm_tight (fun _ => None) (fun _ => None)
    1%Q 1%Q.
split; [exact: Hk | exact: Hn | exact: (Ck Hk) | exact: (Cn Hn)].
Defined.

(** *** More on grid stretching *)

Section StretchingFurther.

Local Open Scope R_scope.

Lemma sign_neg (y : R) : y < 0 -> Demo.sign y = -1.
Proof.
by rewrite /Demo.sign => H; case: (Rlt_dec y 0) => [?|?] //=; lra.
Qed.

Lemma sign_pos (y : R) : 0 < y -> Demo.sign y = 1.
Proof.
rewrite /Demo.sign => H; case: (Rlt_dec y 0) => [?|?] /=; first by lra.
by case: (Rlt_dec 0 y) => [?|?] //=; lra.
Qed.

Lemma sign_zero : Demo.sign 0 = 0.
Proof.
rewrite /Demo.sign; case: (Rlt_dec 0 0) => [?|?] /=; first by lra.
by [].
Qed.

Lemma three_cases (y : R) : y < 0 \/ y = 0 \/ 0 < y.
Proof. by case: (total_order_T y 0) => [[?|?]|?]; auto. Qed.

End StretchingFurther.

Section StretchingSymmetry.

Local Open Scope R_scope.

(** X4: [transform_y] is odd, for every exponent: the stretching is symmetric
    about the plane [y = 0] (and undefined at [-y] exactly when it is at
    [y]). *)
Theorem transform_y_is_odd (y alpha : R) :
  Demo.transform_y (- y) alpha = omap Ropp (Demo.transform_y y alpha).
Proof.
have Hs : Demo.sign (- y) = - Demo.sign y.
  case: (three_cases y) => [H|[->|H]].
  - have H' : 0 < - y by lra.
    by rewrite (sign_neg H) (sign_pos H'); lra.
  - by rewrite Ropp_0 sign_zero; lra.
  - have H' : - y < 0 by lra.
    by rewrite (sign_pos H) (sign_neg H'); lra.
rewrite /Demo.transform_y Rabs_Ropp Hs.
case: (Demo.power (Rabs y) alpha) => [r|] //=.
by congr Some; lra.
Qed.

(** X5: the exponents the script does not guard against.  With exponent 0
    every [y] is sent to its sign and every [x] to -1 or 5, so the mesh
    collapses; with a negative exponent the new coordinate of a vertex with
    [y = 0] or [x = 0] is no real number, and a mesh with such a vertex has
    no stretched image. *)
Theorem stretching_degenerate_exponents :
  (forall y, Demo.transform_y y 0 = Some (Demo.sign y))
  /\ (forall x, Demo.transform_x x 0
                = Some (if Rle_dec x 0 then -1 else 5))
  /\ (forall alpha, alpha < 0 ->
        Demo.transform_y 0 alpha = None /\ Demo.transform_x 0 alpha = None
        /\ forall (z : R) (before after : seq (R * R * R)) (x y : R),
             x = 0 \/ y = 0 ->
             Demo.stretch_mesh alpha (before ++ (x, y, z) :: after) = None).
Proof.
have P0 t : 0 <= t -> Demo.power t 0 = Some 1.
  rewrite /Demo.power => Ht.
  case: (Req_EM_T t 0) => [?|?] /=.
    by case: (Req_EM_T 0 0) => [?|?] //=; lra.
  by rewrite Rpower_O //; lra.
have Pn alpha : alpha < 0 -> Demo.power 0 alpha = None.
  rewrite /Demo.power => Ha.
  case: (Req_EM_T 0 0) => [?|?] /=; last by lra.
  case: (Req_EM_T alpha 0) => [?|?] /=; first by lra.
  by case: (Rlt_dec 0 alpha) => [?|?] //=; lra.
split.
  move=> y; rewrite /Demo.transform_y (P0 _ (Rabs_pos y)) /=.
  by congr Some; lra.
split.
  move=> x; rewrite /Demo.transform_x.
  case: (Rle_dec x 0) => [?|?] /=.
    by rewrite (P0 _ (Rabs_pos x)) /=; congr Some; lra.
  have Hx : 0 <= 0.2 * x by lra.
  by rewrite (P0 _ Hx) /=; congr Some; lra.
move=> alpha Ha.
have Ey : Demo.transform_y 0 alpha = None.
  by rewrite /Demo.transform_y Rabs_R0 Pn.
have Ex : Demo.transform_x 0 alpha = None.
  rewrite /Demo.transform_x.
  case: (Rle_dec 0 0) => [?|?] /=; last by lra.
  by rewrite Rabs_R0 Pn.
split=> //; split=> // z before after x y Hxy.
have Ev : Demo.stretch_vertex alpha (x, y, z) = None.
  rewrite /Demo.stretch_vertex.
  case: Hxy => [->|->]; last by rewrite Ey.
  by rewrite Ex; case: (Demo.transform_y y alpha).
have Ec v m : Demo.stretch_mesh alpha (v :: m)
              = if Demo.stretch_vertex alpha v is Some v'
                then omap (cons v') (Demo.stretch_mesh alpha m) else None.
  by [].
elim: before => [|v m IH]; first by rewrite cat0s Ec Ev.
by rewrite cat_cons Ec IH; case: (Demo.stretch_vertex alpha v).
Qed.

Lemma stretching_degenerate_exponents_witness :
  -1 < 0
  /\ Demo.transform_y 0 (-1) = None
  /\ Demo.stretch_mesh (-1) ([:: (1, 1, 1)] ++ (0, 1, 0) :: [::]) = None.
Proof.
have neg : -1 < 0 by lra.
split; first exact: neg.
have [Ey [_ Em]] := proj2 (proj2 stretching_degenerate_exponents) (-1) neg.
split; first exact: Ey.
exact: (Em 0 [:: (1, 1, 1)] [::] 0 1 (or_introl erefl)).
Defined.

End StretchingSymmetry.

(** *** More on boundary markers and the inflow profile *)

Lemma near_inlet_outlet_exclusive (a : Q) :
  Dolfin.near a (-1) -> Dolfin.near a 5 -> False.
Proof.
rewrite /Dolfin.near /Dolfin.DOLFIN_EPS.
move=> /andP [/Qle_bool_iff H1 /Qle_bool_iff H2].
move=> /andP [/Qle_bool_iff H3 /Qle_bool_iff H4].
by Lqa.lra.
Qed.

Lemma demo_Gamma0_interior (x : Dolfin.point) : Demo.Gamma0 x false = false.
Proof. by rewrite /Demo.Gamma0 /= andbF. Qed.

(** X6: the benchmark's facet markers partition the facets.  Interior facets
    carry 3; a boundary facet carries 1 exactly at [x[0] = -1], 2 exactly at
    [x[0] = 5], and 0 otherwise.  The inlet and outlet tests exclude each
    other, so the result does not depend on the order in which [Gamma1] and
    [Gamma2] are marked. *)
Theorem bench_markers_partition (x : Dolfin.point) (on_boundary : bool) :
  let m := Bench.boundary_markers x on_boundary in
  let inlet := Dolfin.near (Dolfin.coord x 0) (-1) in
  let outlet := Dolfin.near (Dolfin.coord x 0) 5 in
  [/\ (m == 3) = ~~ on_boundary,
      (m == Bench.inlet_marker) = on_boundary && inlet,
      (m == Bench.outlet_marker) = on_boundary && outlet,
      (m == 0) = [&& on_boundary, ~~ inlet & ~~ outlet]
    & m = Dolfin.mark Bench.Gamma1
            (Dolfin.mark Bench.Gamma2
               (Dolfin.mark Bench.Gamma0 (Dolfin.set_all 3) 0) 2) 1
            x on_boundary].
Proof.
rewrite /= /Bench.boundary_markers /Dolfin.mark /Dolfin.set_all.
rewrite /Bench.Gamma0 /Bench.Gamma1 /Bench.Gamma2.
have := @near_inlet_outlet_exclusive (Dolfin.coord x 0).
case: on_boundary => //=.
case: (Dolfin.near _ (-1)); case: (Dolfin.near _ 5) => //= H.
by case: (H isT isT).
Qed.

(** X7: the demo's facet markers.  Interior facets keep the initial marker 4.
    On the boundary the side walls [x[2] = 0] and [x[2] = 1], marked last,
    carry 3 also where they meet the inflow or outflow plane; away from
    them a facet carries 1 exactly at [x[0] = -1] and 2 exactly at
    [x[0] = 5]; what then remains carries 0 on the no-slip walls and keeps 4
    elsewhere. *)
Theorem demo_markers_precedence (x : Dolfin.point) (on_boundary : bool) :
  let m := Demo.boundary_markers x on_boundary in
  let side := Dolfin.near (Dolfin.coord x 2) 0
              || Dolfin.near (Dolfin.coord x 2) 1 in
  let inlet := Dolfin.near (Dolfin.coord x 0) (-1) in
  let outlet := Dolfin.near (Dolfin.coord x 0) 5 in
  [/\ on_boundary || (m == 4),
      (m == 3) = on_boundary && side,
      (m == Demo.inflow_marker) = [&& on_boundary, ~~ side & inlet],
      (m == Demo.outflow_marker) = [&& on_boundary, ~~ side & outlet]
    & (m == 0) = [&& on_boundary, ~~ side, ~~ inlet, ~~ outlet
                  & Demo.Gamma0 x on_boundary]].
Proof.
rewrite /= /Demo.boundary_markers /Dolfin.mark /Dolfin.set_all.
rewrite /Demo.Gamma1 /Demo.Gamma2 /Demo.Gamma3.
have := @near_inlet_outlet_exclusive (Dolfin.coord x 0).
case: on_boundary => /=; last first.
  by rewrite demo_Gamma0_interior !andbF.
rewrite !andbT.
case: (Dolfin.near _ 0 || Dolfin.near _ 1) => /=; first by split.
case: (Dolfin.near _ (-1)); case: (Dolfin.near _ 5) => //= H.
  by case: (H isT isT).
by case: (Demo.Gamma0 x true).
Qed.

Lemma parabola_bounds (y : Q) :
  (0 <= y)%Q -> (y <= 1)%Q ->
  (0 <= 4 * y * (1 - y))%Q /\ (4 * y * (1 - y) <= 1)%Q.
Proof.
move=> H0 H1; split; first by apply: Qmult_le_0_compat; Lqa.lra.
have Hsq : (0 <= (2 * y - 1) * (2 * y - 1))%Q.
  case: (Qlt_le_dec (2 * y - 1) 0) => Hs.
    have ->: ((2 * y - 1) * (2 * y - 1)
              == (- (2 * y - 1)) * (- (2 * y - 1)))%Q by ring.
    by apply: Qmult_le_0_compat; Lqa.lra.
  by apply: Qmult_le_0_compat; Lqa.lra.
have ->: (4 * y * (1 - y) == 1 - (2 * y - 1) * (2 * y - 1))%Q by ring.
by move: Hsq; move: ((2 * y - 1) * (2 * y - 1))%Q => s Hs; Lqa.lra.
Qed.

Lemma parabola_walls (y : Q) :
  (y == 0)%Q \/ (y == 1)%Q -> (4 * y * (1 - y) == 0)%Q.
Proof. by case=> ->; ring. Qed.

(** X8: the inflow profile, the same in the demo and in the benchmark.  Only
    its [x[0]] component is non-zero; across the inlet, [0 <= x[1] <= 1], it
    lies between 0 and 1, so there is no backflow, and it vanishes at
    [x[1] = 0] and [x[1] = 1], where it agrees with the no-slip value. *)
Theorem inflow_profile (x : Dolfin.point) :
  let y := Dolfin.coord x 1 in
  let v := Dolfin.coord (Demo.inflow x) 0 in
  [/\ Dolfin.coord (Bench.inflow x) 0 = v
      /\ v = (4 * y * (1 - y))%Q,
      forall i, 0 < i -> (Dolfin.coord (Demo.inflow x) i == 0)%Q
                         /\ (Dolfin.coord (Bench.inflow x) i == 0)%Q,
      (0 <= y)%Q -> (y <= 1)%Q -> (0 <= v)%Q /\ (v <= 1)%Q
    & (y == 0)%Q \/ (y == 1)%Q ->
      forall i, (Dolfin.coord (Demo.inflow x) i
                 == Dolfin.coord (Demo.noslip x) i)%Q].
Proof.
move=> y v.
have Ev : v = (4 * y * (1 - y))%Q by [].
split.
- by [].
- by move=> [|[|[|i]]] // _; split=> //; case: i.
- by move=> H0 H1; rewrite Ev; exact: parabola_bounds.
- move=> Hy [|[|[|i]]] //.
  rewrite -/v Ev; have -> : Dolfin.coord (Demo.noslip x) 0 = 0%Q by [].
  exact: parabola_walls.
Qed.

Lemma inflow_profile_witness :
  let x : Dolfin.point := [:: -1; 1 # 4; 1 # 2]%Q in
  (0 <= Dolfin.coord x 1)%Q /\ (Dolfin.coord x 1 <= 1)%Q
  /\ (0 <= Dolfin.coord (Demo.inflow x) 0)%Q
  /\ (Dolfin.coord (Demo.inflow x) 0 <= 1)%Q.
Proof.
move=> x.
have H0 : (0 <= Dolfin.coord x 1)%Q by vm_compute.
have H1 : (Dolfin.coord x 1 <= 1)%Q by vm_compute.
have [_ _ H _] := inflow_profile x.
split; first exact: H0.
split; first exact: H1.
exact: (H H0 H1).
Defined.

(** *** More on the command line *)

Section ParseLemmas.

Variable py_int : string -> option Z.
Variable py_float : string -> option Q.

Local Open Scope string_scope.

(** The parser only ever stores values from the declared choices. *)
Lemma parse_from_choices (n : nat) (argv : seq string)
    (a a' : Demo.Namespace) :
  size argv < n -> valid_choices a ->
  Demo.parse_from py_int py_float argv a = Demo.Parsed a' ->
  valid_choices a'.
Proof.
elim: n argv a => [|n IH] [|opt rest] a //=.
  by move=> _ Ha [<-].
rewrite ltnS => Hsz Ha.
case: (_ || _) => //.
case: (String.eqb opt "--save").
  by apply: IH => //; move: Ha; rewrite /valid_choices.
case: rest Hsz => [|val rest] //= Hsz.
have Hsz' : size rest < n by exact: ltnW.
case: (String.eqb opt "-l").
  by case: (py_int val) => // z; apply: IH.
case: (String.eqb opt "-s").
  by case: (py_float val) => // q; apply: IH.
case: (String.eqb opt "--nu").
  by case: (py_float val) => // q; apply: IH.
case: (String.eqb opt "--nls").
  case: ifP => // Hc; apply: IH => //.
  by move: Ha; rewrite /valid_choices /= Hc => /andP [_ ->].
case: (String.eqb opt "--PCD") => //.
case: ifP => // Hc; apply: IH => //.
by move: Ha; rewrite /valid_choices /= Hc => /andP [-> _].
Qed.

End ParseLemmas.

(** X9: whatever command line the parser accepts, the solver tag it returns
    is "Newton" or "Picard" and the strategy tag is "BMR" or "ESW".  So the
    [else] branches of the script are taken by exactly one tag each: the
    artificial pressure condition is on the inflow boundary exactly for
    "BMR", the problem receives [kp] and [nu] instead of [fp] exactly for
    "BMR", and the Jacobian is the frozen-convection form exactly for
    "Picard". *)
Theorem accepted_arguments_take_declared_choices
    (py_int : string -> option Z) (py_float : string -> option Q)
    (argv : seq string) (a : Demo.Namespace) (K : numFieldType) (nu : K) :
  Demo.parse_args py_int py_float argv = Demo.Parsed a ->
  [/\ Demo.nls a = "Newton"%string \/ Demo.nls a = "Picard"%string,
      Demo.pcd_strategy a = "BMR"%string \/ Demo.pcd_strategy a = "ESW"%string,
      (Demo.PCD_BND_MARKER (Demo.pcd_strategy a) == Demo.inflow_marker)
      = String.eqb (Demo.pcd_strategy a) "BMR",
      let pb := Demo.problem nu (Demo.nls a) (Demo.pcd_strategy a) in
      (isSome (Fenapack.pb_kp pb) = String.eqb (Demo.pcd_strategy a) "BMR")
      /\ (isSome (Fenapack.pb_nu pb) = String.eqb (Demo.pcd_strategy a) "BMR")
      /\ (isSome (Fenapack.pb_fp pb) = String.eqb (Demo.pcd_strategy a) "ESW")
    & Demo.J nu (Demo.nls a) = Demo.J_picard nu
      <-> Demo.nls a = "Picard"%string].
Proof.
move=> Hparse.
have Hv : valid_choices a.
  by apply: (parse_from_choices (n := (size argv).+1) _ _ Hparse).
have [Hn Hp] : (Demo.nls a = "Newton"%string \/ Demo.nls a = "Picard"%string)
               /\ (Demo.pcd_strategy a = "BMR"%string
                   \/ Demo.pcd_strategy a = "ESW"%string).
  case/andP: Hv; rewrite /Demo.is_choice /= !orbF.
  move=> /orP [/String.eqb_eq ->|/String.eqb_eq ->];
    move=> /orP [/String.eqb_eq ->|/String.eqb_eq ->]; by split; auto.
split=> //.
- by case: Hp => ->.
- by case: Hp => ->.
- by case: Hn => ->; split.
Qed.

Lemma accepted_arguments_take_declared_choices_witness :
  let argv := [:: "--nls"; "Newton"; "--PCD"; "BMR"]%string in
  let a := Demo.mkNamespace 3 1 (2 # 100) "Newton" "BMR" false in
  Demo.parse_args (fun _ => None) (fun _ => None) argv = Demo.Parsed a
  /\ (Demo.PCD_BND_MARKER (Demo.pcd_strategy a) == Demo.inflow_marker)
     = String.eqb (Demo.pcd_strategy a) "BMR".
Proof.
move=> argv a.
have H : Demo.parse_args (fun _ => None) (fun _ => None) argv = Demo.Parsed a
  by [].
split; first exact: H.
by have [_ _ E _ _] :=
  accepted_arguments_take_declared_choices (1%R : rat) H.
Defined.

(** *** More on the benchmark's forms *)

Section BenchForms.

Variable K : numFieldType.
Variable nu alpha : K.
Variable n : nat.
Variable elem : Ufl.integrand -> Ufl.measure -> 'M[K]_n.

Import Ufl.
Local Open Scope string_scope.
Local Open Scope ring_scope.
Local Open Scope form_scope.

Lemma assemble_one_minus_alpha (a : form K) :
  assemble elem (Bench.one_minus_alpha_term alpha a)
  = (1 - alpha) *: assemble elem a.
Proof.
rewrite /Bench.one_minus_alpha_term; case: eqP => [->|_].
  by rewrite subrr scale0r assemble_nil.
exact: assemble_fscale.
Qed.

Lemma derivative_one_minus_alpha (a : form K) :
  derivative (Bench.one_minus_alpha_term alpha a)
  = Bench.one_minus_alpha_term alpha (derivative a).
Proof.
rewrite /Bench.one_minus_alpha_term; case: (alpha == 1) => //.
exact: derivative_fscale.
Qed.

Lemma derivative_fsub (a b : form K) :
  derivative (a -f b) = derivative a -f derivative b.
Proof. by rewrite /fsub /fneg derivative_fadd derivative_fscale. Qed.

(** The assembled matrices of the integrals the Jacobians are made of. *)
Let A := elem (GradGrad Trial_u Test_v) dx.
Let C1 := elem (Convect Trial_u Iterate_u Test_v) dx.
Let C2 := elem (Convect Iterate_u Trial_u Test_v) dx.
Let D1 := elem (DivOuter Trial_u Iterate_u Test_v) dx.
Let D2 := elem (DivOuter Iterate_u Trial_u Test_v) dx.
Let B := elem (MulDiv Trial_p Test_v) dx.
Let Bt := elem (MulDiv Test_q Trial_u) dx.

Lemma bench_forms_direct (nls : string) :
  Bench.create_forms nu alpha nls "direct"
  = if String.eqb nls "picard" || String.eqb nls "newton"
    then omap (fun r => (r.1.1.1, r.1.1.2, r.1.2, None))
              (Bench.create_forms nu alpha nls "iterative")
    else None.
Proof.
rewrite /Bench.create_forms.
by case: (String.eqb nls "picard") => //=; case: (String.eqb nls "newton").
Qed.

Lemma bench_picard_assembled (ls : string) F bcs J J_pc :
  Bench.create_forms nu alpha "picard" ls = Some (F, bcs, J, J_pc) ->
  assemble elem J
  = nu *: A + alpha *: C1 + (1 - alpha) *: D1 - B - Bt.
Proof.
rewrite /Bench.create_forms (eqb_refl "picard"); cbv beta iota zeta.
case: (String.eqb ls "iterative"); last case: (String.eqb ls "direct") => //.
  case=> _ _ <- _.
  by rewrite !assemble_fsub !assemble_cons assemble_one_minus_alpha
             ?assemble_integral ?assemble_nil /= !mulr1 !scale1r !addr0
             !addrA.
case=> _ _ <- _.
by rewrite !assemble_fsub !assemble_cons assemble_one_minus_alpha
           ?assemble_integral ?assemble_nil /= !mulr1 !scale1r !addr0
           !addrA.
Qed.

Lemma bench_newton_assembled (ls : string) F bcs J J_pc :
  Bench.create_forms nu alpha "newton" ls = Some (F, bcs, J, J_pc) ->
  assemble elem J
  = nu *: A + alpha *: (C1 + C2) + (1 - alpha) *: (D1 + D2) - B - Bt.
Proof.
have E : assemble elem (derivative
           (nu *f integral K (GradGrad Iterate_u Test_v) dx
            +f alpha *f integral K (Convect Iterate_u Iterate_u Test_v) dx
            +f Bench.one_minus_alpha_term alpha
                 (integral K (DivOuter Iterate_u Iterate_u Test_v) dx)
            -f integral K (MulDiv Iterate_p Test_v) dx
            -f integral K (MulDiv Test_q Iterate_u) dx))
         = nu *: A + alpha *: (C1 + C2) + (1 - alpha) *: (D1 + D2) - B - Bt.
  rewrite !derivative_fsub !derivative_fadd !derivative_fscale
          derivative_one_minus_alpha.
  rewrite !assemble_fsub !assemble_fadd !assemble_fscale
          assemble_one_minus_alpha.
  rewrite /derivative /= /assemble !big_cons !big_nil /= !scale1r !addr0.
  by [].
rewrite /Bench.create_forms.
have -> : String.eqb "newton" "picard" = false by [].
rewrite (eqb_refl "newton"); cbv beta iota zeta.
case: (String.eqb ls "iterative"); last case: (String.eqb ls "direct") => //.
  by case=> _ _ <- _; exact: E.
by case=> _ _ <- _; exact: E.
Qed.

Lemma bench_residual_assembled (nls ls : string) F bcs J J_pc :
  Bench.create_forms nu alpha nls ls = Some (F, bcs, J, J_pc) ->
  assemble elem F
  = nu *: elem (GradGrad Iterate_u Test_v) dx
    + alpha *: elem (Convect Iterate_u Iterate_u Test_v) dx
    + (1 - alpha) *: elem (DivOuter Iterate_u Iterate_u Test_v) dx
    - elem (MulDiv Iterate_p Test_v) dx
    - elem (MulDiv Test_q Iterate_u) dx.
Proof.
have E : assemble elem
           (nu *f integral K (GradGrad Iterate_u Test_v) dx
            +f alpha *f integral K (Convect Iterate_u Iterate_u Test_v) dx
            +f Bench.one_minus_alpha_term alpha
                 (integral K (DivOuter Iterate_u Iterate_u Test_v) dx)
            -f integral K (MulDiv Iterate_p Test_v) dx
            -f integral K (MulDiv Test_q Iterate_u) dx)
         = nu *: elem (GradGrad Iterate_u Test_v) dx
           + alpha *: elem (Convect Iterate_u Iterate_u Test_v) dx
           + (1 - alpha) *: elem (DivOuter Iterate_u Iterate_u Test_v) dx
           - elem (MulDiv Iterate_p Test_v) dx
           - elem (MulDiv Test_q Iterate_u) dx.
  by rewrite !assemble_fsub !assemble_fadd !assemble_fscale
             assemble_one_minus_alpha !assemble_integral.
rewrite /Bench.create_forms; cbv zeta.
case: (String.eqb nls "picard"); last case: (String.eqb nls "newton") => //.
  case: (String.eqb ls "iterative"); last case: (String.eqb ls "direct") => //.
    by case=> <- _ _ _; exact: E.
  by case=> <- _ _ _; exact: E.
case: (String.eqb ls "iterative"); last case: (String.eqb ls "direct") => //.
  by case=> <- _ _ _; exact: E.
by case=> <- _ _ _; exact: E.
Qed.

Lemma bench_forms_tags (nls ls : string) F bcs J J_pc :
  Bench.create_forms nu alpha nls ls = Some (F, bcs, J, J_pc) ->
  (nls = "picard" \/ nls = "newton") /\ (ls = "iterative" \/ ls = "direct").
Proof.
rewrite /Bench.create_forms; cbv zeta.
case E1: (String.eqb nls "picard").
  move/String.eqb_eq: E1 => ->.
  case E2: (String.eqb ls "iterative").
    by move/String.eqb_eq: E2 => -> _; split; left.
  case E3: (String.eqb ls "direct") => //.
  by move/String.eqb_eq: E3 => -> _; split; [left | right].
case E1': (String.eqb nls "newton") => //.
move/String.eqb_eq: E1' => ->.
case E2: (String.eqb ls "iterative").
  by move/String.eqb_eq: E2 => -> _; split; [right | left].
case E3: (String.eqb ls "direct") => //.
by move/String.eqb_eq: E3 => -> _; split; right.
Qed.

Lemma rearrange_jacobian (V : zmodType) (a c1 c2 d1 d2 b bt : V) :
  a + (c1 + c2) + (d1 + d2) - b - bt = a + c1 + d1 - b - bt + c2 + d2.
Proof.
rewrite -!addrA; congr (_ + (_ + _)).
rewrite addrCA; congr (_ + _).
by rewrite [RHS]addrA [RHS]addrC -addrA.
Qed.

End BenchForms.

(** X10: in the benchmark the Newton Jacobian is the Picard Jacobian plus the
    two terms in which the trial function convects the iterate, weighted as
    in the residual: [alpha] times the convective form and [1 - alpha]
    times the divergence form.  Residual and boundary conditions are the
    same under both solver tags. *)
Theorem bench_newton_minus_picard
    (K : numFieldType) (nu alpha : K) (n : nat)
    (elem : Ufl.integrand -> Ufl.measure -> 'M[K]_n) (ls : string)
    (F F' : Ufl.form K) (bcs bcs' : seq Dolfin.DirichletBC)
    (Jn Jp : Ufl.form K) (Jn_pc Jp_pc : option (Ufl.form K)) :
  Bench.create_forms nu alpha "newton" ls = Some (F, bcs, Jn, Jn_pc) ->
  Bench.create_forms nu alpha "picard" ls = Some (F', bcs', Jp, Jp_pc) ->
  [/\ F = F', bcs = bcs', Jn = Ufl.derivative F
    & Ufl.assemble elem Jn
      = (Ufl.assemble elem Jp
         + alpha *: elem (Ufl.Convect Ufl.Iterate_u Ufl.Trial_u Ufl.Test_v)
                      Ufl.dx
         + (1 - alpha)
           *: elem (Ufl.DivOuter Ufl.Iterate_u Ufl.Trial_u Ufl.Test_v)
                Ufl.dx)%R].
Proof.
move=> Hn Hp.
have En := bench_newton_assembled elem Hn.
have Ep := bench_picard_assembled elem Hp.
have [_ Hls] := bench_forms_tags Hn.
rewrite En Ep !scalerDr rearrange_jacobian.
move: Hn Hp; rewrite /Bench.create_forms /=.
by case: Hls => -> /= [<- <- <- _] [<- <- _ _].
Qed.

Lemma bench_newton_minus_picard_witness :
  match Bench.create_forms (1 : rat)%R (1 : rat)%R "newton" "direct",
        Bench.create_forms (1 : rat)%R (1 : rat)%R "picard" "direct" with
  | Some (F, _, Jn, _), Some (F', _, _, _) => F = F' /\ Jn = Ufl.derivative F
  | _, _ => False
  end.
Proof.
case Hn: (Bench.create_forms _ _ "newton" _) => [[[[F bcs] Jn] Jn_pc]|];
  last by move: Hn.
case Hp: (Bench.create_forms _ _ "picard" _) => [[[[F' bcs'] Jp] Jp_pc]|];
  last by move: Hp.
have [E1 _ E3 _] :=
  bench_newton_minus_picard (fun _ _ => (1%:M : 'M[rat]_1)%R) Hn Hp.
by split; [exact: E1 | exact: E3].
Defined.

Section DemoAssembled.

Variable K : numFieldType.
Variable nu : K.
Variable n : nat.
Variable elem : Ufl.integrand -> Ufl.measure -> 'M[K]_n.

Import Ufl.
Local Open Scope ring_scope.

Lemma assemble_demo_F :
  assemble elem (Demo.F nu)
  = nu *: elem (GradGrad Iterate_u Test_v) dx
    + elem (Convect Iterate_u Iterate_u Test_v) dx
    - elem (MulDiv Iterate_p Test_v) dx
    - elem (MulDiv Test_q Iterate_u) dx
    - elem (Inner Source_f Test_v) dx.
Proof.
by rewrite /Demo.F !assemble_fsub !assemble_fadd assemble_fscale
           !assemble_integral.
Qed.

Lemma assemble_demo_J_picard :
  assemble elem (Demo.J_picard nu)
  = nu *: elem (GradGrad Trial_u Test_v) dx
    + elem (Convect Trial_u Iterate_u Test_v) dx
    - elem (MulDiv Trial_p Test_v) dx
    - elem (MulDiv Test_q Trial_u) dx.
Proof.
by rewrite /Demo.J_picard !assemble_fsub !assemble_fadd assemble_fscale
           !assemble_integral.
Qed.

End DemoAssembled.

(** X11: run with [alpha = 1.0], the benchmark assembles the demo's system.
    Its residual is the demo's residual without the body-force term, and
    its Jacobian under "picard" or "newton" is the demo's Jacobian under
    "Picard" or "Newton". *)
Theorem bench_with_alpha_one_is_the_demo
    (K : numFieldType) (nu : K) (n : nat)
    (elem : Ufl.integrand -> Ufl.measure -> 'M[K]_n) (nls ls : string)
    (F : Ufl.form K) (bcs : seq Dolfin.DirichletBC) (J : Ufl.form K)
    (J_pc : option (Ufl.form K)) :
  Bench.create_forms nu 1%R nls ls = Some (F, bcs, J, J_pc) ->
  Ufl.assemble elem F
  = (Ufl.assemble elem (Demo.F nu)
     + elem (Ufl.Inner Ufl.Source_f Ufl.Test_v) Ufl.dx)%R
  /\ Ufl.assemble elem J
     = Ufl.assemble elem
         (Demo.J nu (if String.eqb nls "picard" then "Picard"
                     else "Newton")%string).
Proof.
move=> H; split.
  rewrite (bench_residual_assembled elem H) assemble_demo_F.
  by rewrite subrr scale0r addr0 scale1r subrK.
have [[E|E] _] := bench_forms_tags H; move: H; rewrite E => H.
  rewrite (bench_picard_assembled elem H) /Demo.J /= assemble_demo_J_picard.
  by rewrite subrr scale0r addr0 scale1r.
rewrite (bench_newton_assembled elem H) /Demo.J /=.
rewrite demo_newton_minus_picard assemble_demo_J_picard.
rewrite subrr scale0r addr0 scale1r.
have := rearrange_jacobian
          (nu *: elem (Ufl.GradGrad Ufl.Trial_u Ufl.Test_v) Ufl.dx)%R
          (elem (Ufl.Convect Ufl.Trial_u Ufl.Iterate_u Ufl.Test_v) Ufl.dx)
          (elem (Ufl.Convect Ufl.Iterate_u Ufl.Trial_u Ufl.Test_v) Ufl.dx)
          0%R 0%R
          (elem (Ufl.MulDiv Ufl.Trial_p Ufl.Test_v) Ufl.dx)
          (elem (Ufl.MulDiv Ufl.Test_q Ufl.Trial_u) Ufl.dx).
by rewrite !addr0.
Qed.

Lemma bench_with_alpha_one_is_the_demo_witness :
  match Bench.create_forms (2%:R : rat)%R 1%R "picard" "iterative" with
  | Some (F, _, J, _) =>
      Ufl.assemble (fun _ _ => (1%:M : 'M[rat]_1)%R) J
      = Ufl.assemble (fun _ _ => (1%:M : 'M[rat]_1)%R)
          (Demo.J (2%:R : rat)%R "Picard")
  | None => False
  end.
Proof.
case H: (Bench.create_forms _ _ _ _) => [[[[F bcs] J] J_pc]|];
  last by move: H.
exact: (proj2 (bench_with_alpha_one_is_the_demo
                 (fun _ _ => (1%:M : 'M[rat]_1)%R) H)).
Defined.

(** *** More on the benchmark's solver options *)

Lemma prefix_append (p name : string) :
  String.prefix p (String.append p name) = true.
Proof.
elim: p => [|c p IH] /=; first by case: name.
by case: (ascii_dec c c).
Qed.

Lemma set_outside_prefix (d : Py.dict) (p name k : string) (v : Py.value) :
  String.prefix p k = false -> Py.set d (String.append p name) v k = d k.
Proof.
move=> Hk; rewrite /Py.set; case E: (String.eqb _ _) => //.
by move/String.eqb_eq: E Hk => ->; rewrite prefix_append.
Qed.

Lemma append_assoc (a b c : string) :
  String.append (String.append a b) c = String.append a (String.append b c).
Proof. by elim: a => [|ch a IH] //=; rewrite IH. Qed.

Lemma prefix_same_length (r1 r2 x y : string) :
  String.length r1 = String.length r2 ->
  String.prefix (String.append r2 x) (String.append r1 y) = true -> r1 = r2.
Proof.
elim: r2 r1 => [|c2 r2 IH] [|c1 r1] //= [Hlen].
case: (ascii_dec c2 c1) => // -> Hp.
by rewrite (IH r1 Hlen Hp).
Qed.

Lemma create_options_frame (random_string : string) (db db' : Py.dict)
    (pcd_variant ls : string) (mumps_debug : bool) (k : string) :
  Bench.create_options random_string db pcd_variant ls mumps_debug = Some db' ->
  String.prefix (Bench.options_prefix random_string) k = false ->
  db' k = db k.
Proof.
rewrite /Bench.create_options /Bench.opt => H Hk; move: H Hk.
move: (Bench.options_prefix random_string) => p.
case: (String.eqb ls "iterative").
  by case=> <- Hk; rewrite !set_outside_prefix.
case: (String.eqb ls "direct") => //.
by case: mumps_debug => -[<-] Hk; rewrite !set_outside_prefix.
Qed.

(** X12: [create_solver] writes only options whose name starts with the
    solver's own prefix: every other entry of the option table is left as
    it was.  In particular the options of a solver made with another random
    string of the same length (the strings are UUIDs in hexadecimal, 32
    characters each) are not overwritten. *)
Theorem create_solver_keeps_foreign_options
    (random_string : string) (krylov_defaults newton_defaults : Py.parameters)
    (PETScOptions : Py.dict) (pcd_variant ls : string) (mumps_debug : bool)
    (solver : Fenapack.PCDNewtonSolver) (db : Py.dict) :
  Bench.create_solver random_string krylov_defaults newton_defaults
    PETScOptions pcd_variant ls mumps_debug = Some (solver, db) ->
  [/\ Fenapack.ks_options_prefix (Fenapack.nw_linear_solver solver)
      = Bench.options_prefix random_string,
      Fenapack.ks_options (Fenapack.nw_linear_solver solver) = db,
      forall k, String.prefix (Bench.options_prefix random_string) k = false ->
                db k = PETScOptions k
    & forall other name,
        String.length other = String.length random_string ->
        other <> random_string ->
        db (Bench.opt other name) = PETScOptions (Bench.opt other name)].
Proof.
rewrite /Bench.create_solver.
case H: (Bench.create_options _ _ _ _ _) => [db0|] // [<- <-].
have Hframe k := @create_options_frame _ _ _ _ _ _ k H.
split=> // other name Hlen Hne; apply: Hframe.
case E: (String.prefix _ _) => //.
case: Hne; move: E; rewrite /Bench.opt /Bench.options_prefix /=.
by rewrite append_assoc => /(prefix_same_length Hlen).
Qed.

Lemma create_solver_keeps_foreign_options_witness :
  let first := Py.set Py.empty (Bench.opt "a" "ksp_gmres_restart")
                 (Py.Int 150) in
  match Bench.create_solver "b" (fun _ => None) (fun _ => None) first
          "BRM1" "iterative" false with
  | Some (_, db) =>
      db (Bench.opt "a" "ksp_gmres_restart") = Some (Py.Int 150)
  | None => False
  end.
Proof.
move=> first.
case H: (Bench.create_solver _ _ _ _ _ _ _) => [[solver db]|];
  last by move: H.
have [_ _ _ E] := create_solver_keeps_foreign_options H.
by rewrite E.
Defined.

(** *** The Prepare block and the loop of [test_scaling_mesh] *)

Section PrepareLemmas.

Variable K : numFieldType.

Local Open Scope string_scope.

Lemma create_forms_spec (nu alpha : K) (nls ls : string) :
  match Bench.create_forms nu alpha nls ls with
  | Some (F, bcs, J, J_pc) =>
      [/\ nls_known nls, ls_known ls
        & isSome J_pc = String.eqb ls "iterative"]
  | None => ~~ (nls_known nls && ls_known ls)
  end.
Proof.
rewrite /Bench.create_forms /nls_known /ls_known; cbv zeta.
case: (String.eqb nls "picard") => /=.
  case E: (String.eqb ls "iterative") => //=.
  by case: (String.eqb ls "direct").
case: (String.eqb nls "newton") => //=.
case E: (String.eqb ls "iterative") => //=.
by case: (String.eqb ls "direct").
Qed.

Lemma create_pcd_problem_spec (F : Ufl.form K) (bcs : seq Dolfin.DirichletBC)
    (J : Ufl.form K) (J_pc : option (Ufl.form K)) (nu : K)
    (pcd_variant : string) :
  match Bench.create_pcd_problem F bcs J J_pc nu pcd_variant with
  | Some pb =>
      [/\ pcd_variant_known pcd_variant,
          Fenapack.pb_J_pc pb = J_pc
        & Fenapack.pb_bcs_pcd pb
          = [:: Dolfin.mkDirichletBC Dolfin.W_sub1 Bench.zero
                  (if String.eqb pcd_variant "BRM1"
                   then Bench.inlet_marker else Bench.outlet_marker)]]
  | None => ~~ pcd_variant_known pcd_variant
  end.
Proof.
rewrite /Bench.create_pcd_problem /Bench.bc_pcd /pcd_variant_known.
case: (String.eqb pcd_variant "BRM1") => //=.
by case: (String.eqb pcd_variant "BRM2").
Qed.

Lemma create_solver_spec (random_string : string)
    (krylov_defaults newton_defaults : Py.parameters)
    (pcd_variant ls : string) :
  match Bench.create_solver random_string krylov_defaults newton_defaults
          Py.empty pcd_variant ls false with
  | Some (solver, db) =>
      [/\ ls_known ls,
          db (Bench.opt random_string "fieldsplit_p_pc_python_type")
          = Some (Py.Str (String.append "fenapack.PCDPC_" pcd_variant))
        & isSome (db (Bench.opt random_string "fieldsplit_u_pc_type"))
          = String.eqb ls "iterative"]
  | None => ~~ ls_known ls
  end.
Proof.
rewrite /Bench.create_solver /Bench.create_options /ls_known.
case: (String.eqb ls "iterative") => /=.
  by split=> //; rewrite /Py.set /Bench.opt !append_eqb.
case: (String.eqb ls "direct") => //=.
by split=> //; rewrite /Py.set /Bench.opt !append_eqb.
Qed.

End PrepareLemmas.


Section TestLoop.

Variable K : numFieldType.
Variable random_string : nat -> string.
Variable krylov_defaults newton_defaults : Py.parameters.
Variable solve : nat -> Fenapack.PCDProblem K -> Fenapack.PCDNewtonSolver
                 -> nat * bool * nat.
Variables nu alpha : K.
Variables nls pcd_variant ls : string.

Hypothesis tags_known :
  [&& nls_known nls, pcd_variant_known pcd_variant & ls_known ls].

Let report := level_report random_string krylov_defaults newton_defaults
                solve nu alpha nls pcd_variant ls.
Let conv := level_converged report.
Let row := level_row report.

Lemma prepare_known (level : nat) :
  exists pb solver db,
    Bench.prepare random_string krylov_defaults newton_defaults level
      nu alpha nls pcd_variant ls = Some (pb, solver, db).
Proof.
case/and3P: tags_known => Hn Hp Hl; rewrite /Bench.prepare.
have := create_forms_spec nu alpha nls ls.
case: (Bench.create_forms nu alpha nls ls) => [[[[F bcs] J] J_pc]|];
  last by rewrite Hn Hl.
move=> _; have := create_pcd_problem_spec F bcs J J_pc nu pcd_variant.
case: (Bench.create_pcd_problem _ _ _ _ _ _) => [pb|]; last by rewrite Hp.
move=> _; have := create_solver_spec (random_string level) krylov_defaults
                    newton_defaults pcd_variant ls.
case: (Bench.create_solver _ _ _ _ _ _ _) => [[solver db]|];
  last by rewrite Hl.
by move=> _; exists pb, solver, db.
Qed.

Lemma levels_loop_spec (levels : seq nat) (results : seq (nat * Bench.row)) :
  Bench.levels_loop random_string krylov_defaults newton_defaults solve
    levels results nu alpha nls pcd_variant ls
  = if all conv levels then Bench.Passed (results ++ map row levels)
    else Bench.AssertionError (nth 0 levels (find (predC conv) levels))
           (results ++ map row (take (find (predC conv) levels) levels)).
Proof.
elim: levels results => [|l levels IH] results /=; first by rewrite cats0.
have [pb [solver [db Hp]]] := prepare_known l.
have Er : report l = solve l pb solver.
  by rewrite /report /level_report Hp.
rewrite Hp /conv /level_converged Er.
case Es: (solve l pb solver) => [[nit c] kit] /=.
case: c Es => Es /=; last by rewrite cats0.
rewrite IH !cat_rcons /row /level_row Er Es /=.
reflexivity.
Qed.

End TestLoop.



(** *** The parametrisation meets the branches of the functions *)


